(** * Stock_widget backend: alert engine, price cache and subscriber registry

    A shallow embedding of [backend/models.py], [backend/alert_service.py],
    [backend/cache_service.py], [backend/stocks_service.py],
    [backend/webex_service.py] and, of [backend/main.py], the
    [ConnectionManager], [load_alert_rules] and [get_fresh_prices],
    followed by the properties of the design document that these functions
    decide and by further properties of the code.

    Conventions of the embedding:
    - Python [int] is [Z]; Python [float] is the kernel's binary64 [float];
      Python [str] is [string], the text in UTF-8; [Optional[T]] is
      [option T]. [str.upper] is a function of the interpreter, of which
      the ASCII part is known.
    - A timezone-aware [datetime] is the number of microseconds since the
      epoch, a [Z]: [datetime] has microsecond resolution, and the
      difference of two of them is a [timedelta] counted in microseconds,
      whose [total_seconds()] is a float.
    - Reads of the clock ([datetime.now], [time.time]) and replies of the
      outside world (Redis, a websocket send) are explicit arguments.
    - [self] is passed in and the updated [self] is returned. *)

From Stdlib Require Import ZArith String Ascii List Lia DecimalString.
From Stdlib Require Import Floats.
From stdpp Require Import base option list gmap strings.

#[local] Set Warnings "-register-all".

Local Open Scope string_scope.
Local Open Scope list_scope.
Local Open Scope Z_scope.

(* ===================================================================== *)
(** * models.py *)
(* ===================================================================== *)

Definition datetime : Type := Z.

Module StockPrice.
Record t : Type := mk {
  symbol : string;
  price : float;
  change : float;
  percentChange : float;
  ts : datetime
}.
End StockPrice.

Module AlertRule.
Record t : Type := mk {
  id : Z;
  symbol : string;
  operator : string;
  threshold : float;
  description : string;
  enabled : bool;
  cooldown_seconds : Z;
  last_triggered : option datetime
}.

(** [rule.last_triggered = now], the only assignment the engine makes to a
    rule after it is built. *)
Definition set_last_triggered (rule : t) (now : datetime) : t :=
  mk (id rule) (symbol rule) (operator rule) (threshold rule)
     (description rule) (enabled rule) (cooldown_seconds rule) (Some now).
End AlertRule.

Module AlertEvent.
Record t : Type := mk {
  rule_id : Z;
  symbol : string;
  price : float;
  triggered_at : datetime;
  message : string
}.
End AlertEvent.

(* ===================================================================== *)
(** * Python built-ins used by the services *)
(* ===================================================================== *)

(** Upper case on ASCII text: the letters a..z move to A..Z, every other
    character stays. *)
Definition upper_ascii (c : ascii) : ascii :=
  let n := nat_of_ascii c in
  if (97 <=? n)%nat && (n <=? 122)%nat then ascii_of_nat (n - 32) else c.

Fixpoint ascii_upper (s : string) : string :=
  match s with
  | EmptyString => EmptyString
  | String c s' => String (upper_ascii c) (ascii_upper s')
  end.

(** Text of ASCII characters only: every byte is below 128. *)
Fixpoint is_ascii (s : string) : bool :=
  match s with
  | EmptyString => true
  | String c s' => (nat_of_ascii c <? 128)%nat && is_ascii s'
  end.

(** [str(n)] for an [int], as an f-string renders it. *)
Definition str_int (n : Z) : string := NilZero.string_of_int (Z.to_int n).

(** What Python does with text is the interpreter's business.
    - [str_float x] is [f"{x}"] and [format_2f x] is [f"{x:.2f}"].
    - [upper s] is [s.upper()]. On ASCII text it moves the letters a..z to
      A..Z and keeps every other character, and that much is a law here.
      On other text it follows the case mapping of Unicode, letter by
      letter or to several letters, which is not spelled out: nothing
      below depends on it. *)
Class PyFormat : Type := {
  str_float : float -> string;
  format_2f : float -> string;
  upper : string -> string;
  upper_ascii_text : forall s, is_ascii s = true -> upper s = ascii_upper s
}.

(** Python compares a float with an int by their exact values; a NaN
    compares with nothing. *)
Definition float_compare_int (x : float) (n : Z) : option comparison :=
  match Prim2SF x with
  | S754_nan => None
  | S754_infinity s => Some (if s then Lt else Gt)
  | S754_zero _ => Some (0 ?= n)
  | S754_finite s m e =>
      let v := if s then Z.neg m else Z.pos m in
      Some (if 0 <=? e then v * 2 ^ e ?= n else v ?= n * 2 ^ (- e))
  end.

(** [x >= n] *)
Definition float_ge_int (x : float) (n : Z) : bool :=
  match float_compare_int x n with
  | Some Gt | Some Eq => true
  | _ => false
  end.

(** An [int] as an operand of a division: its exact value. *)
Definition SF_of_int (n : Z) : spec_float :=
  match n with
  | Z0 => S754_zero false
  | Zpos p => S754_finite false p 0
  | Zneg p => S754_finite true p 0
  end.

(** [timedelta.total_seconds()]: the microseconds of [delta] over [10**6].
    The two are ints, and [/] on ints gives the float nearest to the exact
    quotient, ties to even: the IEEE division of the two exact values. (A
    [timedelta] stays below 10^9 days, far from where the quotient would be
    too large for a float.) *)
Definition total_seconds (delta : Z) : float :=
  SF2Prim (SFdiv prec emax (SF_of_int delta) (SF_of_int 1000000)).

(** A [dict] keeps its keys in insertion order, and [d[k] = v] on a key that
    is present replaces the value where it stands. *)
Fixpoint dict_set {V : Type} (d : list (Z * V)) (k : Z) (v : V) : list (Z * V) :=
  match d with
  | [] => [(k, v)]
  | (k', v') :: d' =>
      if Z.eqb k' k then (k', v) :: d' else (k', v') :: dict_set d' k v
  end.

Definition dict_values {V : Type} (d : list (Z * V)) : list V := map snd d.

(** [l[-n:]] for a positive [n]: the last [n] items, the whole list when it
    is shorter. *)
Definition last_n {A : Type} (n : nat) (l : list A) : list A :=
  drop (length l - n)%nat l.

(* ===================================================================== *)
(** * alert_service.py *)
(* ===================================================================== *)

Record AlertManager : Type := mkAlertManager {
  _rules : list (Z * AlertRule.t);
  _next_id : Z;
  _events : list AlertEvent.t
}.

(** [AlertManager.__init__] *)
Definition AlertManager_init : AlertManager :=
  {| _rules := []; _next_id := 1; _events := [] |}.

(** Defaults of [add_rule]'s keyword arguments. *)
Definition default_enabled : bool := true.
Definition default_cooldown_seconds : Z := 60.

Definition add_rule `{PyFormat} (self : AlertManager)
    (symbol operator : string) (threshold : float) (description : string)
    (enabled : bool) (cooldown_seconds : Z) : AlertManager * AlertRule.t :=
  let rule :=
    {| AlertRule.id := _next_id self;
       AlertRule.symbol := upper symbol;
       AlertRule.operator := operator;
       AlertRule.threshold := threshold;
       AlertRule.description := description;
       AlertRule.enabled := enabled;
       AlertRule.cooldown_seconds := cooldown_seconds;
       AlertRule.last_triggered := None |} in
  ({| _rules := dict_set (_rules self) (AlertRule.id rule) rule;
      _next_id := _next_id self + 1;
      _events := _events self |},
   rule).

(** The values of [list_rules] and [recent_events]; who else holds the
    objects they list is the subject of [Module Objects] below. *)
Definition list_rules (self : AlertManager) : list AlertRule.t :=
  dict_values (_rules self).

Definition recent_events (self : AlertManager) : list AlertEvent.t :=
  _events self.

(** Python's [a > b] on floats is [b < a]: false as soon as one side is a
    NaN, like the four other comparisons. *)
Definition _condition_met (rule : AlertRule.t) (price : float) : bool :=
  if String.eqb (AlertRule.operator rule) ">" then
    PrimFloat.ltb (AlertRule.threshold rule) price
  else if String.eqb (AlertRule.operator rule) "<" then
    PrimFloat.ltb price (AlertRule.threshold rule)
  else if String.eqb (AlertRule.operator rule) ">=" then
    PrimFloat.leb (AlertRule.threshold rule) price
  else if String.eqb (AlertRule.operator rule) "<=" then
    PrimFloat.leb price (AlertRule.threshold rule)
  else if String.eqb (AlertRule.operator rule) "==" then
    PrimFloat.eqb price (AlertRule.threshold rule)
  else false.

(** [_can_trigger]: the float [delta.total_seconds()] against the int
    [rule.cooldown_seconds]. *)
Definition _can_trigger (rule : AlertRule.t) (now : datetime) : bool :=
  match AlertRule.last_triggered rule with
  | None => true
  | Some last =>
      let delta := now - last in
      float_ge_int (total_seconds delta) (AlertRule.cooldown_seconds rule)
  end.

(** [{p.symbol.upper(): p for p in prices}]: a later price replaces an
    earlier one under the same key. *)
Definition price_index `{PyFormat} (prices : list StockPrice.t)
    : gmap string StockPrice.t :=
  foldl (fun m p => <[upper (StockPrice.symbol p) := p]> m) ∅ prices.

Definition alert_message `{PyFormat} (rule : AlertRule.t) (current_price : float) : string :=
  ("Alert " ++ str_int (AlertRule.id rule) ++ ": " ++ AlertRule.symbol rule
    ++ " " ++ AlertRule.operator rule ++ " "
    ++ str_float (AlertRule.threshold rule)
    ++ " (current: " ++ format_2f current_price ++ ")")%string.

(** One turn of the loop of [check_alerts] on one rule object: the rule as
    the turn leaves it, and the event when the rule fires. Each [continue]
    of the source is a [(rule, None)]. *)
Definition check_rule `{PyFormat} (now : datetime)
    (price_by_symbol : gmap string StockPrice.t) (rule : AlertRule.t)
    : AlertRule.t * option AlertEvent.t :=
  if negb (AlertRule.enabled rule) then (rule, None) else
  match price_by_symbol !! upper (AlertRule.symbol rule) with
  | None => (rule, None)
  | Some price_obj =>
      let current_price := StockPrice.price price_obj in
      if negb (_condition_met rule current_price) then (rule, None) else
      if negb (_can_trigger rule now) then (rule, None) else
      let rule' := AlertRule.set_last_triggered rule now in
      let event :=
        {| AlertEvent.rule_id := AlertRule.id rule';
           AlertEvent.symbol := AlertRule.symbol rule';
           AlertEvent.price := current_price;
           AlertEvent.triggered_at := now;
           AlertEvent.message := alert_message rule' current_price |} in
      (rule', Some event)
  end.

(** [for rule in self._rules.values()]: the dict keeps its keys, the rule
    objects are updated where they are, and a fired event is appended both
    to the local [events] and to [self._events]. *)
Fixpoint check_loop `{PyFormat} (now : datetime)
    (price_by_symbol : gmap string StockPrice.t)
    (rules : list (Z * AlertRule.t))
    (events self_events : list AlertEvent.t)
    : list (Z * AlertRule.t) * list AlertEvent.t * list AlertEvent.t :=
  match rules with
  | [] => ([], events, self_events)
  | (k, rule) :: rest =>
      match check_rule now price_by_symbol rule with
      | (rule', Some event) =>
          let '(rest', events', self_events') :=
            check_loop now price_by_symbol rest
                       (events ++ [event]) (self_events ++ [event]) in
          ((k, rule') :: rest', events', self_events')
      | (rule', None) =>
          let '(rest', events', self_events') :=
            check_loop now price_by_symbol rest events self_events in
          ((k, rule') :: rest', events', self_events')
      end
  end.

(** [check_alerts]; [now] is what [datetime.now(timezone.utc)] returns. *)
Definition check_alerts `{PyFormat} (self : AlertManager)
    (prices : list StockPrice.t) (now : datetime)
    : AlertManager * list AlertEvent.t :=
  match _rules self with
  | [] => (self, [])
  | _ :: _ =>
      let price_by_symbol := price_index prices in
      let '(rules', events, self_events) :=
        check_loop now price_by_symbol (_rules self) [] (_events self) in
      let self_events' :=
        if (50 <? length self_events)%nat then last_n 50 self_events
        else self_events in
      ({| _rules := rules'; _next_id := _next_id self; _events := self_events' |},
       events)
  end.

(** What one turn of the loop leaves under a key, and the event it fires. *)
Definition step_rule `{PyFormat} (now : datetime)
    (price_by_symbol : gmap string StockPrice.t) (kr : Z * AlertRule.t)
    : Z * AlertRule.t :=
  (kr.1, (check_rule now price_by_symbol kr.2).1).

Definition step_event `{PyFormat} (now : datetime)
    (price_by_symbol : gmap string StockPrice.t) (kr : Z * AlertRule.t)
    : option AlertEvent.t :=
  (check_rule now price_by_symbol kr.2).2.

(** The calls made on an engine, and what a run of them leaves: the state
    and, in the order of their appending, all the events ever fired. *)
Inductive call : Type :=
| AddRule (symbol operator : string) (threshold : float) (description : string)
          (enabled : bool) (cooldown_seconds : Z)
| CheckAlerts (prices : list StockPrice.t) (now : datetime).

Definition run_call `{PyFormat} (st : AlertManager * list AlertEvent.t) (c : call)
    : AlertManager * list AlertEvent.t :=
  match c with
  | AddRule symbol operator threshold description enabled cooldown_seconds =>
      ((add_rule st.1 symbol operator threshold description enabled
                 cooldown_seconds).1, st.2)
  | CheckAlerts prices now =>
      let '(self', events) := check_alerts st.1 prices now in
      (self', st.2 ++ events)
  end.

Definition run_from `{PyFormat} (st : AlertManager * list AlertEvent.t)
    (calls : list call) : AlertManager * list AlertEvent.t :=
  foldl run_call st calls.

Definition run `{PyFormat} (calls : list call) : AlertManager * list AlertEvent.t :=
  run_from (AlertManager_init, []) calls.

(** The rules returned by a series of [add_rule] calls, with the engine they
    leave. *)
Record rule_args : Type := mk_rule_args {
  arg_symbol : string;
  arg_operator : string;
  arg_threshold : float;
  arg_description : string;
  arg_enabled : bool;
  arg_cooldown_seconds : Z
}.

Definition add_rule_args `{PyFormat} (self : AlertManager) (a : rule_args)
    : AlertManager * AlertRule.t :=
  add_rule self (arg_symbol a) (arg_operator a) (arg_threshold a)
           (arg_description a) (arg_enabled a) (arg_cooldown_seconds a).

Fixpoint add_rules `{PyFormat} (self : AlertManager) (args : list rule_args)
    : AlertManager * list AlertRule.t :=
  match args with
  | [] => (self, [])
  | a :: rest =>
      let '(self1, rule) := add_rule_args self a in
      let '(self2, rules) := add_rules self1 rest in
      (self2, rule :: rules)
  end.

(** The rule object [add_rule] builds from its arguments under a given id. *)
Definition rule_of_args `{PyFormat} (id : Z) (a : rule_args) : AlertRule.t :=
  {| AlertRule.id := id;
     AlertRule.symbol := upper (arg_symbol a);
     AlertRule.operator := arg_operator a;
     AlertRule.threshold := arg_threshold a;
     AlertRule.description := arg_description a;
     AlertRule.enabled := arg_enabled a;
     AlertRule.cooldown_seconds := arg_cooldown_seconds a;
     AlertRule.last_triggered := None |}.

(** Upper case of a character as the design document means it for a ticker
    symbol, said without [upper_ascii]: a letter from a to z becomes the
    character 32 codes below it, any other character stays. *)
Definition uppercased_char (c : ascii) : ascii :=
  if (Ascii.leb "a" c && Ascii.leb c "z")%char
  then ascii_of_N (N_of_ascii c - 32) else c.

(** main.py, [load_alert_rules]: the rules registered at startup, the
    demonstration ones when [USE_DEMO_ALERT_RULES] is set (it is). The
    integer thresholds of the source become floats in the rule. *)
Definition startup_rules (use_demo : bool) : list rule_args :=
  if use_demo then
    [ mk_rule_args "AAPL" ">" 0%float "DEMO: AAPL > 0" default_enabled 10;
      mk_rule_args "TSLA" ">" 0%float "DEMO: TSLA > 0" default_enabled 10;
      mk_rule_args "NVDA" ">" 0%float "DEMO: NVDA > 0" default_enabled 10 ]
  else
    [ mk_rule_args "AAPL" ">" 200%float "AAPL > 200 (Notify WebEx)" default_enabled 60;
      mk_rule_args "TSLA" "<" 180%float "TSLA < 180 (Notify WebEx)" default_enabled 60;
      mk_rule_args "NVDA" ">" 1000%float "NVDA > 1000 (High priority)" default_enabled 60 ].

Definition USE_DEMO_ALERT_RULES : bool := true.

Definition load_alert_rules `{PyFormat} : AlertManager :=
  (add_rules AlertManager_init (startup_rules USE_DEMO_ALERT_RULES)).1.

(** The rule table of an engine that only [add_rule] and [check_alerts] have
    touched: every rule sits under its own id, no id twice, and all ids are
    below the next one to hand out. *)
Definition rules_wf (self : AlertManager) : Prop :=
  NoDup (map fst (_rules self))
  /\ Forall (fun kr => AlertRule.id kr.2 = kr.1) (_rules self)
  /\ Forall (fun kr => kr.1 < _next_id self) (_rules self).

(** A cooldown for which the float test of [_can_trigger] is exact: at most
    2^34 seconds in size, some 544 years. *)
Definition exact_cooldown (rule : AlertRule.t) : Prop :=
  - 2 ^ 34 < AlertRule.cooldown_seconds rule <= 2 ^ 34.

(** The rule decides by itself whether it fires: this is the conjunction of
    the four tests of the loop body. *)
Definition fires `{PyFormat} (now : datetime)
    (price_by_symbol : gmap string StockPrice.t) (rule : AlertRule.t) : bool :=
  AlertRule.enabled rule
  && match price_by_symbol !! upper (AlertRule.symbol rule) with
     | None => false
     | Some price_obj =>
         _condition_met rule (StockPrice.price price_obj)
         && _can_trigger rule now
     end.

(** The rule objects after an evaluation, one by one against the ones
    before: the same key, the same fields but [last_triggered], which is
    [now] when the rule fires; a rule that does not fire is the same. *)
Definition rule_framed `{PyFormat} (now : datetime)
    (pbs : gmap string StockPrice.t) (kr kr' : Z * AlertRule.t) : Prop :=
  kr'.1 = kr.1
  /\ AlertRule.id kr'.2 = AlertRule.id kr.2
  /\ AlertRule.symbol kr'.2 = AlertRule.symbol kr.2
  /\ AlertRule.operator kr'.2 = AlertRule.operator kr.2
  /\ AlertRule.threshold kr'.2 = AlertRule.threshold kr.2
  /\ AlertRule.description kr'.2 = AlertRule.description kr.2
  /\ AlertRule.enabled kr'.2 = AlertRule.enabled kr.2
  /\ AlertRule.cooldown_seconds kr'.2 = AlertRule.cooldown_seconds kr.2
  /\ (fires now pbs kr.2 = true -> AlertRule.last_triggered kr'.2 = Some now)
  /\ (fires now pbs kr.2 = false -> kr' = kr).

(** A returned event against the rule that fired it: the id and the symbol
    of the rule, the price found for the symbol, the time of the
    evaluation and the message built from them. *)
Definition event_of_rule `{PyFormat} (now : datetime)
    (pbs : gmap string StockPrice.t) (kr : Z * AlertRule.t)
    (event : AlertEvent.t) : Prop :=
  AlertEvent.rule_id event = AlertRule.id kr.2
  /\ AlertEvent.symbol event = AlertRule.symbol kr.2
  /\ StockPrice.price <$> pbs !! upper (AlertRule.symbol kr.2)
     = Some (AlertEvent.price event)
  /\ AlertEvent.triggered_at event = now
  /\ AlertEvent.message event
     = alert_message (AlertRule.set_last_triggered kr.2 now) (AlertEvent.price event).

(** An event of [rule] is among [events]. *)
Definition fired_by (rule : AlertRule.t) (events : list AlertEvent.t) : Prop :=
  exists event,
    event ∈ events /\ AlertEvent.rule_id event = AlertRule.id rule.

Definition known_operator (op : string) : Prop :=
  op = ">" \/ op = "<" \/ op = ">=" \/ op = "<=" \/ op = "==".

(* ===================================================================== *)
(** * cache_service.py *)
(* ===================================================================== *)

(** What [json.loads] builds and [json.dumps] accepts. *)
Inductive json : Type :=
| JNull
| JBool (b : bool)
| JInt (n : Z)
| JFloat (x : float)
| JStr (s : string)
| JList (items : list json)
| JDict (items : list (string * json)).

Definition bytes : Type := list Byte.byte.

(** A call that leaves this process either returns or raises. *)
Variant outcome (A : Type) : Type :=
| Returns (a : A)
| Raises.
Arguments Returns {A} a.
Arguments Raises {A}.

(** The libraries the cache goes through. A function that can raise returns
    an option, [None] standing for the exception.
    - [json_dumps], [json_loads]: the [json] module;
    - [jsonable_encoder]: FastAPI's, on a list of [StockPrice];
    - [StockPrice_validate kwargs]: pydantic's validation when a
      [StockPrice] is built from the keyword arguments [kwargs];
    - [float_of_str s]: [float(s)] on a string;
    - [str_encode], [bytes_decode]: UTF-8, as redis-py applies it to a [str]
      value and as [value.decode("utf-8")] undoes it. *)
Class PyLib : Type := {
  json_dumps : json -> string;
  json_loads : string -> option json;
  jsonable_encoder : list StockPrice.t -> json;
  StockPrice_validate : list (string * json) -> option StockPrice.t;
  float_of_str : string -> option float;
  str_encode : string -> bytes;
  bytes_decode : bytes -> option string
}.

(** [d.get(k)] on a dict built by [json.loads]: [None] when absent. *)
Fixpoint dict_get (d : list (string * json)) (k : string) : option json :=
  match d with
  | [] => None
  | (k', v) :: d' => if String.eqb k' k then Some v else dict_get d' k
  end.

(** [float(n)] on an [int]: the nearest binary64, ties to even, and
    [OverflowError] beyond the largest one. *)
Definition float_of_int (n : Z) : option float :=
  match binary_normalize prec emax n 0 false with
  | S754_infinity _ => None
  | x => Some (SF2Prim x)
  end.

(** [float(v)] on a value that is not [None]. [bool] is an [int]; lists and
    dicts raise [TypeError]. *)
Definition py_float `{PyLib} (v : json) : option float :=
  match v with
  | JBool b => Some (if b then 1%float else 0%float)
  | JInt n => float_of_int n
  | JFloat x => Some x
  | JStr s => float_of_str s
  | JNull | JList _ | JDict _ => None
  end.

(** [x > n] *)
Definition float_gt_int (x : float) (n : Z) : bool :=
  match float_compare_int x n with
  | Some Gt => true
  | _ => false
  end.

(** [x <= n] *)
Definition float_le_int (x : float) (n : Z) : bool :=
  match float_compare_int x n with
  | Some Lt | Some Eq => true
  | _ => false
  end.

Variant RedisClient : Type := redis_connection.

Record PriceCache : Type := mkPriceCache {
  key : string;
  backend : string;
  _memory_blob : option string;
  redis_client : option RedisClient
}.

(** [PriceCache.__init__]: [connected] is the client when the redis library
    is there and the server answered the ping. *)
Definition PriceCache_init (key : string) (connected : option RedisClient)
    : PriceCache :=
  match connected with
  | Some client =>
      {| key := key; backend := "redis"; _memory_blob := None;
         redis_client := Some client |}
  | None =>
      {| key := key; backend := "memory"; _memory_blob := None;
         redis_client := None |}
  end.

Definition default_key : string := "smartstock:latest_prices".

(** The text [save_prices] builds; [now] is what [time.time()] returns. *)
Definition saved_blob `{PyLib} (prices : list StockPrice.t) (now : float) : json :=
  JDict [("ts", JFloat now); ("data", jsonable_encoder prices)].

(** [save_prices]: the cache afterwards, and the [SET key value] sent to
    Redis when there is a client. Whether that call returns or raises
    changes nothing in the cache. *)
Definition save_prices `{PyLib} (self : PriceCache) (prices : list StockPrice.t)
    (now : float) (set_reply : outcome unit)
    : PriceCache * option (string * bytes) :=
  let raw := json_dumps (saved_blob prices now) in
  let self' :=
    {| key := key self; backend := backend self; _memory_blob := Some raw;
       redis_client := redis_client self |} in
  match redis_client self with
  | None => (self', None)
  | Some _ => (self', Some (key self, str_encode raw))
  end.

(** The text [load_prices] works on: Redis first when there is a client and
    its [GET] returned a value that decodes, the in-memory copy otherwise. *)
Definition cached_raw `{PyLib} (self : PriceCache)
    (get_reply : outcome (option bytes)) : option string :=
  let raw :=
    match redis_client self with
    | Some _ =>
        match get_reply with
        | Returns (Some value) => bytes_decode value
        | Returns None => None
        | Raises => None
        end
    | None => None
    end in
  match raw, _memory_blob self with
  | None, Some blob => Some blob
  | _, _ => raw
  end.

(** [StockPrice] built from [item] unpacked as keyword arguments:
    [TypeError] unless [item] is a mapping. *)
Definition StockPrice_init `{PyLib} (item : json) : option StockPrice.t :=
  match item with
  | JDict kwargs => StockPrice_validate kwargs
  | _ => None
  end.

(** The list comprehension over [data] that unpacks each item into a
    [StockPrice]. Iterating a dict or a string yields strings, which do not
    unpack, so only the empty ones go through; the other values are not
    iterable. *)
Definition build_prices `{PyLib} (data : json) : option (list StockPrice.t) :=
  match data with
  | JList items => mapM StockPrice_init items
  | JDict [] => Some []
  | JStr EmptyString => Some []
  | _ => None
  end.

(** The [try] block of [load_prices] on the text [raw]: every exception in
    it ends in [return None]. *)
Definition parse_cached `{PyLib} (raw : string) (max_age_seconds : Z)
    (now : float) : option (list StockPrice.t) :=
  match json_loads raw with
  | Some (JDict blob) =>
      let ts := dict_get blob "ts" in
      let data := default (JList []) (dict_get blob "data") in
      match ts with
      | None | Some JNull => None
      | Some ts =>
          match py_float ts with
          | None => None
          | Some ts =>
              let age := PrimFloat.sub now ts in
              if float_gt_int age max_age_seconds then None
              else build_prices data
          end
      end
  | _ => None
  end.

(** [load_prices]; [now] is what [time.time()] returns and [get_reply] what
    the [GET] does when there is a client. *)
Definition load_prices `{PyLib} (self : PriceCache) (max_age_seconds : Z)
    (now : float) (get_reply : outcome (option bytes))
    : option (list StockPrice.t) :=
  match cached_raw self get_reply with
  | None => None
  | Some raw => parse_cached raw max_age_seconds now
  end.

(** The stored instant of a payload: it parses to a dict whose [ts] is there
    and converts to a float. *)
Definition payload_ts `{PyLib} (raw : string) : option float :=
  match json_loads raw with
  | Some (JDict blob) =>
      match dict_get blob "ts" with
      | None | Some JNull => None
      | Some ts => py_float ts
      end
  | _ => None
  end.

(** The snapshot of a payload: its [data] gives a list of [StockPrice]. *)
Definition payload_prices `{PyLib} (raw : string) : option (list StockPrice.t) :=
  match json_loads raw with
  | Some (JDict blob) => build_prices (default (JList []) (dict_get blob "data"))
  | _ => None
  end.

(** The freshness test as [load_prices] makes it: not [age > max_age]. *)
Definition not_stale (now ts : float) (max_age_seconds : Z) : bool :=
  negb (float_gt_int (PrimFloat.sub now ts) max_age_seconds).

(** The freshness test as the design document words it:
    [now - storedAt <= maxAge]. *)
Definition within_max_age (now ts : float) (max_age_seconds : Z) : bool :=
  float_le_int (PrimFloat.sub now ts) max_age_seconds.

(** The condition for a hit, under a freshness test [fresh]: there is a
    cached text, it parses to a payload with a stored instant [ts] and the
    snapshot [prices], and [ts] is fresh at [now]. *)
Definition hit_when `{PyLib} (fresh : float -> float -> Z -> bool)
    (self : PriceCache) (max_age_seconds : Z) (now : float)
    (get_reply : outcome (option bytes)) (prices : list StockPrice.t) : Prop :=
  exists raw ts,
    cached_raw self get_reply = Some raw
    /\ payload_ts raw = Some ts
    /\ payload_prices raw = Some prices
    /\ fresh now ts max_age_seconds = true.

(** What Redis may answer to the [GET] that follows a [save_prices] for the
    cache to read back what it wrote: there is no client, or the call
    raises, or the key is not there, or the value is the one just sent. *)
Definition reads_back `{PyLib} (self : PriceCache) (raw : string)
    (get_reply : outcome (option bytes)) : Prop :=
  redis_client self = None
  \/ get_reply = Raises
  \/ get_reply = Returns None
  \/ get_reply = Returns (Some (str_encode raw)).

(* ===================================================================== *)
(** * main.py: ConnectionManager *)
(* ===================================================================== *)

(** A websocket object, known by its identity. *)
Definition WebSocket : Type := positive.

Record ConnectionManager : Type := mkConnectionManager {
  active_connections : list WebSocket
}.

Definition ConnectionManager_init : ConnectionManager :=
  {| active_connections := [] |}.

(** [connect]: when [accept] raises, so does [connect], and nothing is
    appended. *)
Definition connect (self : ConnectionManager) (websocket : WebSocket)
    (accept_reply : outcome unit) : outcome ConnectionManager :=
  match accept_reply with
  | Raises => Raises
  | Returns _ =>
      Returns {| active_connections := active_connections self ++ [websocket] |}
  end.

(** [l.remove(x)]: the first occurrence goes; [ValueError] when there is
    none. *)
Fixpoint py_remove (x : WebSocket) (l : list WebSocket) : option (list WebSocket) :=
  match l with
  | [] => None
  | y :: l' => if decide (y = x) then Some l' else cons y <$> py_remove x l'
  end.

(** [disconnect]: the membership test keeps [remove] from raising. *)
Definition disconnect (self : ConnectionManager) (websocket : WebSocket)
    : ConnectionManager :=
  if decide (websocket ∈ active_connections self) then
    match py_remove websocket (active_connections self) with
    | Some l => {| active_connections := l |}
    | None => self
    end
  else self.

(** One delivery attempt, as [broadcast] sees it. *)
Record attempt : Type := mk_attempt {
  attempt_to : WebSocket;
  attempt_text : string;
  attempt_reply : outcome unit
}.

Definition delivered (a : attempt) : bool :=
  match attempt_reply a with
  | Returns _ => true
  | Raises => false
  end.

(** The loop of [broadcast] over the copy [connections] of the registry
    taken when the call starts. [send_text i] is what the [i]-th
    [send_text] of the call does; the attempts are logged in order. *)
Fixpoint broadcast_loop (send_text : nat -> outcome unit) (message : string)
    (i : nat) (connections : list WebSocket)
    (self : ConnectionManager) (log : list attempt)
    : ConnectionManager * list attempt :=
  match connections with
  | [] => (self, log)
  | connection :: rest =>
      match send_text i with
      | Returns tt =>
          broadcast_loop send_text message (S i) rest self
            (log ++ [mk_attempt connection message (Returns tt)])
      | Raises =>
          broadcast_loop send_text message (S i) rest
            (disconnect self connection)
            (log ++ [mk_attempt connection message Raises])
      end
  end.

Definition broadcast (self : ConnectionManager) (message : string)
    (send_text : nat -> outcome unit) : ConnectionManager * list attempt :=
  broadcast_loop send_text message 0 (active_connections self) self [].

(** The attempts a call makes on the connections [connections], the first
    of them being the [i]-th of the call. *)
Fixpoint attempts (send_text : nat -> outcome unit) (message : string)
    (i : nat) (connections : list WebSocket) : list attempt :=
  match connections with
  | [] => []
  | connection :: rest =>
      mk_attempt connection message (send_text i)
      :: attempts send_text message (S i) rest
  end.

(** The websockets of a log whose send raised. *)
Definition failed (log : list attempt) : list WebSocket :=
  map attempt_to (filter (fun a => delivered a = false) log).

(* ===================================================================== *)
(** * The objects behind an AlertManager *)
(* ===================================================================== *)

(** [list_rules] and [recent_events] hand Python objects to their caller.
    Here the rules, the events, the dict and the lists are objects in a
    store, [self._rules] and [self._events] are references, and so are the
    items of a list and the values of a dict. *)
Module Objects.

Definition loc : Type := positive.

Inductive object : Type :=
| RuleObj (rule : AlertRule.t)
| EventObj (event : AlertEvent.t)
| ListObj (items : list loc)
| DictObj (items : list (Z * loc)).

Abbreviation store := (gmap loc object).

Record manager : Type := mk_manager {
  rules_ref : loc;
  next_id : Z;
  events_ref : loc
}.

Definition alloc (h : store) (o : object) : store * loc :=
  let l := fresh (dom h) in (<[l := o]> h, l).

(** [AlertManager()] *)
Definition init (h : store) : store * manager :=
  let '(h1, d) := alloc h (DictObj []) in
  let '(h2, es) := alloc h1 (ListObj []) in
  (h2, {| rules_ref := d; next_id := 1; events_ref := es |}).

(** [add_rule]: the rule object that goes into the dict is the one
    returned. *)
Definition add_rule `{PyFormat} (h : store) (self : manager)
    (symbol operator : string) (threshold : float) (description : string)
    (enabled : bool) (cooldown_seconds : Z)
    : option (store * manager * loc) :=
  match h !! rules_ref self with
  | Some (DictObj d) =>
      let '(h1, rule) :=
        alloc h (RuleObj (AlertRule.mk (next_id self) (upper symbol)
                            operator threshold description enabled
                            cooldown_seconds None)) in
      Some (<[rules_ref self := DictObj (dict_set d (next_id self) rule)]> h1,
            {| rules_ref := rules_ref self;
               next_id := next_id self + 1;
               events_ref := events_ref self |},
            rule)
  | _ => None
  end.

(** [list(self._rules.values())]: a new list object; its items are the
    references the dict holds. *)
Definition list_rules (h : store) (self : manager) : option (store * loc) :=
  match h !! rules_ref self with
  | Some (DictObj d) => Some (alloc h (ListObj (dict_values d)))
  | _ => None
  end.

(** [list(self._events)] *)
Definition recent_events (h : store) (self : manager) : option (store * loc) :=
  match h !! events_ref self with
  | Some (ListObj es) => Some (alloc h (ListObj es))
  | _ => None
  end.

Definition deref_rule (h : store) (kl : Z * loc) : option (Z * AlertRule.t) :=
  match h !! kl.2 with
  | Some (RuleObj rule) => Some (kl.1, rule)
  | _ => None
  end.

Definition rule_at (h : store) (l : loc) : option AlertRule.t :=
  match h !! l with
  | Some (RuleObj rule) => Some rule
  | _ => None
  end.

Definition deref_event (h : store) (l : loc) : option AlertEvent.t :=
  match h !! l with
  | Some (EventObj event) => Some event
  | _ => None
  end.

(** The engine as values: what its references lead to in the store. *)
Definition state_of (h : store) (self : manager) : option AlertManager :=
  match h !! rules_ref self, h !! events_ref self with
  | Some (DictObj d), Some (ListObj es) =>
      rules ← mapM (deref_rule h) d;
      events ← mapM (deref_event h) es;
      Some {| _rules := rules; _next_id := next_id self; _events := events |}
  | _, _ => None
  end.

(** What a caller can do with a reference it was given. Every mutation of
    a list (append, remove, item assignment, clear, sort) leaves some
    other list of items in the same object. *)
Definition list_mutate (h : store) (l : loc) (items : list loc) : store :=
  match h !! l with
  | Some (ListObj _) => <[l := ListObj items]> h
  | _ => h
  end.

(** [rule.enabled = b] *)
Definition set_enabled (h : store) (l : loc) (b : bool) : store :=
  match h !! l with
  | Some (RuleObj rule) =>
      <[l := RuleObj (AlertRule.mk (AlertRule.id rule) (AlertRule.symbol rule)
                        (AlertRule.operator rule) (AlertRule.threshold rule)
                        (AlertRule.description rule) b
                        (AlertRule.cooldown_seconds rule)
                        (AlertRule.last_triggered rule))]> h
  | _ => h
  end.

(** [event.message = s] *)
Definition set_message (h : store) (l : loc) (s : string) : store :=
  match h !! l with
  | Some (EventObj event) =>
      <[l := EventObj (AlertEvent.mk (AlertEvent.rule_id event)
                         (AlertEvent.symbol event) (AlertEvent.price event)
                         (AlertEvent.triggered_at event) s)]> h
  | _ => h
  end.

End Objects.

(* ===================================================================== *)
(** * stocks_service.py *)
(* ===================================================================== *)

Definition DEFAULT_SYMBOLS : list string := ["AAPL"; "TSLA"; "NVDA"; "MSFT"].

Definition USE_MOCK_PRICES : bool := false.

Record StockPriceProvider : Type := mkStockPriceProvider {
  symbols : list string;
  api_key : option string;
  _fallback_state : gmap string float
}.

(** Truth of an optional string: [None] and the empty string are false. *)
Definition str_truthy (s : option string) : bool :=
  match s with
  | Some (String _ _) => true
  | _ => false
  end.

(** [a or b] on optional strings. *)
Definition py_or (a b : option string) : option string :=
  if str_truthy a then a else b.

(** Truth of a float: false on the two zeros only. *)
Definition float_truthy (x : float) : bool := negb (PrimFloat.eqb x 0%float).

(** [a / b] on floats: [ZeroDivisionError] on a zero divisor. *)
Definition py_truediv (a b : float) : option float :=
  if PrimFloat.eqb b 0%float then None else Some (PrimFloat.div a b).

(** [max(a, b)]: the first argument unless the second is greater. *)
Definition py_max (a b : float) : float :=
  if PrimFloat.ltb a b then b else a.

(** [{sym: 100.0 + i * 50 for i, sym in enumerate(symbols)}], from index
    [i] on; the sum converts the int to a float. *)
Fixpoint baseline_state (i : Z) (syms : list string) (state : gmap string float)
    : option (gmap string float) :=
  match syms with
  | [] => Some state
  | sym :: rest =>
      match float_of_int (i * 50) with
      | Some x =>
          baseline_state (i + 1) rest (<[sym := PrimFloat.add 100%float x]> state)
      | None => None
      end
  end.

(** [StockPriceProvider.__init__]; [env_token] and [env_api_key] are what
    [os.getenv] gives for [FINNHUB_TOKEN] and [FINNHUB_API_KEY]. *)
Definition StockPriceProvider_init (symbols_arg : option (list string))
    (api_key_arg env_token env_api_key : option string)
    : option StockPriceProvider :=
  let symbols :=
    match symbols_arg with
    | Some (sym :: rest) => sym :: rest
    | _ => DEFAULT_SYMBOLS
    end in
  let api_key := py_or (py_or api_key_arg env_token) env_api_key in
  state ← baseline_state 0 symbols ∅;
  Some {| symbols := symbols; api_key := api_key; _fallback_state := state |}.

(** [(change / prev_price) * 100 if prev_price else 0.0] *)
Definition percent_change_of (change prev_price : float) : option float :=
  if float_truthy prev_price then
    (fun q => PrimFloat.mul q 100%float) <$> py_truediv change prev_price
  else Some 0%float.

(** [_fallback_price]; [r] is what [random.random()] returns. [None] is an
    exception leaving the function. *)
Definition _fallback_price (self : StockPriceProvider) (symbol : string)
    (now : datetime) (r : float) : option (StockPriceProvider * StockPrice.t) :=
  let prev_price := default 100%float (_fallback_state self !! symbol) in
  let delta := PrimFloat.mul (PrimFloat.sub r 0.5%float) 4%float in
  let new_price := py_max 1%float (PrimFloat.add prev_price delta) in
  let change := PrimFloat.sub new_price prev_price in
  percent_change ← percent_change_of change prev_price;
  Some ({| symbols := symbols self; api_key := api_key self;
           _fallback_state := <[symbol := new_price]> (_fallback_state self) |},
        StockPrice.mk symbol new_price change percent_change now).

(** [_fallback_snapshot]: the list comprehension over [self.symbols], the
    [i]-th call drawing [rand i]. *)
Fixpoint fallback_loop (self : StockPriceProvider) (syms : list string)
    (now : datetime) (rand : nat -> float) (i : nat)
    : option (StockPriceProvider * list StockPrice.t) :=
  match syms with
  | [] => Some (self, [])
  | sym :: rest =>
      '(self1, p) ← _fallback_price self sym now (rand i);
      '(self2, ps) ← fallback_loop self1 rest now rand (S i);
      Some (self2, p :: ps)
  end.

Definition _fallback_snapshot (self : StockPriceProvider) (now : datetime)
    (rand : nat -> float) : option (StockPriceProvider * list StockPrice.t) :=
  fallback_loop self (symbols self) now rand 0.

(** [price <= 0] on a value of the quote: [TypeError] on what does not
    compare with an int; [bool] is an [int]. *)
Definition py_le_zero (price : json) : option bool :=
  match price with
  | JBool b => Some (negb b)
  | JInt n => Some (n <=? 0)
  | JFloat x => Some (PrimFloat.leb x 0%float)
  | _ => None
  end.

(** [_fetch_symbol_from_finnhub]; [http] is what opening the URL and reading
    the body does. Every exception ends in [None], with the provider as it
    was: the baseline is written after the last statement that can raise. *)
Definition _fetch_symbol_from_finnhub `{PyLib} (self : StockPriceProvider)
    (symbol : string) (now : datetime) (http : outcome bytes)
    : option (StockPriceProvider * StockPrice.t) :=
  if negb (str_truthy (api_key self)) then None else
  match http with
  | Raises => None
  | Returns body =>
      raw ← bytes_decode body;
      data ← json_loads raw;
      match data with
      | JDict quote_fields =>
          match dict_get quote_fields "c" with
          | None | Some JNull => None
          | Some price =>
              nonpositive ← py_le_zero price;
              if (nonpositive : bool) then None else
              current ← py_float price;
              let prev_price := default current (_fallback_state self !! symbol) in
              let change := PrimFloat.sub current prev_price in
              percent_change ← percent_change_of change prev_price;
              Some ({| symbols := symbols self; api_key := api_key self;
                       _fallback_state :=
                         <[symbol := current]> (_fallback_state self) |},
                    StockPrice.mk symbol current change percent_change now)
          end
      | _ => None
      end
  end.

(** The loop of [get_prices]: Finnhub symbol by symbol, the mock price for a
    symbol whose fetch raised. *)
Fixpoint fetch_loop `{PyLib} (self : StockPriceProvider) (syms : list string)
    (now : datetime) (http : nat -> outcome bytes) (rand : nat -> float) (i : nat)
    : option (StockPriceProvider * list StockPrice.t) :=
  match syms with
  | [] => Some (self, [])
  | sym :: rest =>
      '(self1, p) ←
        match _fetch_symbol_from_finnhub self sym now (http i) with
        | Some r => Some r
        | None => _fallback_price self sym now (rand i)
        end;
      '(self2, ps) ← fetch_loop self1 rest now http rand (S i);
      Some (self2, p :: ps)
  end.

(** [get_prices]; [now] is what [datetime.now(timezone.utc)] returns. *)
Definition get_prices `{PyLib} (self : StockPriceProvider) (now : datetime)
    (http : nat -> outcome bytes) (rand : nat -> float)
    : option (StockPriceProvider * list StockPrice.t) :=
  if USE_MOCK_PRICES then _fallback_snapshot self now rand
  else if negb (str_truthy (api_key self)) then _fallback_snapshot self now rand
  else fetch_loop self (symbols self) now http rand 0.

Definition get_price_snapshot `{PyLib} (self : StockPriceProvider) (now : datetime)
    (http : nat -> outcome bytes) (rand : nat -> float)
    : option (StockPriceProvider * list StockPrice.t) :=
  get_prices self now http rand.

(** A float that came out of a Finnhub quote: the value [c] passed the test
    [c <= 0] as false and converts to it. *)
Definition accepted_quote `{PyLib} (x : float) : Prop :=
  exists c, py_le_zero c = Some false /\ py_float c = Some x.

(* ===================================================================== *)
(** * webex_service.py *)
(* ===================================================================== *)

Record WebexNotifier : Type := mkWebexNotifier {
  token : option string;
  room_id : option string;
  enabled : bool
}.

(** [WebexNotifier.__init__], from [WEBEX_BOT_TOKEN] and [WEBEX_ROOM_ID]. *)
Definition WebexNotifier_init (env_token env_room_id : option string)
    : WebexNotifier :=
  {| token := env_token; room_id := env_room_id;
     enabled := str_truthy env_token && str_truthy env_room_id |}.

(** [datetime.isoformat], the interpreter's business like the rendering of
    floats. *)
Class PyDatetime : Type := {
  isoformat : datetime -> string
}.

Definition newline : string := String "010"%char EmptyString.

(** [f"{s}"] on an optional string. *)
Definition str_opt (s : option string) : string :=
  match s with
  | Some s => s
  | None => "None"
  end.

Definition _build_message_text `{PyFormat} `{PyDatetime} (event : AlertEvent.t)
    : string :=
  ("🚨 Stock Alert" ++ newline
   ++ "Rule ID: " ++ str_int (AlertEvent.rule_id event) ++ newline
   ++ "Symbol: " ++ AlertEvent.symbol event ++ newline
   ++ "Triggered at: " ++ isoformat (AlertEvent.triggered_at event) ++ newline
   ++ "Price: " ++ format_2f (AlertEvent.price event) ++ newline
   ++ "Details: " ++ AlertEvent.message event)%string.

(** The request [send_alert] posts. *)
Record webex_request : Type := mk_webex_request {
  request_url : string;
  request_data : bytes;
  request_headers : list (string * string)
}.

Definition json_of_opt (s : option string) : json :=
  match s with
  | Some s => JStr s
  | None => JNull
  end.

(** [send_alert]: nothing is posted when the notifier is disabled; what the
    post does, return or raise, ends in a print and changes nothing. *)
Definition send_alert `{PyFormat} `{PyDatetime} `{PyLib} (self : WebexNotifier)
    (event : AlertEvent.t) (http : outcome unit) : option webex_request :=
  if negb (enabled self) then None else
  let url := "https://webexapis.com/v1/messages" in
  let text := _build_message_text event in
  let body := JDict [("roomId", json_of_opt (room_id self)); ("text", JStr text)] in
  let data := str_encode (json_dumps body) in
  let headers :=
    [("Authorization", ("Bearer " ++ str_opt (token self))%string);
     ("Content-Type", "application/json")] in
  Some (mk_webex_request url data headers).

(* ===================================================================== *)
(** * main.py: get_fresh_prices *)
(* ===================================================================== *)

(** The four module-level objects of main.py. *)
Record App : Type := mkApp {
  price_provider : StockPriceProvider;
  price_cache : PriceCache;
  alert_manager : AlertManager;
  webex_notifier : WebexNotifier
}.

(** What one call of [get_fresh_prices] reads from outside: the clocks, in
    the order of their reading, and the replies of Redis, of Finnhub, of
    the random generator and of WebEx. *)
Record cycle_env : Type := mk_cycle_env {
  env_load_time : float;
  env_get_reply : outcome (option bytes);
  env_fetch_now : datetime;
  env_finnhub : nat -> outcome bytes;
  env_random : nat -> float;
  env_save_time : float;
  env_set_reply : outcome unit;
  env_alerts_now : datetime;
  env_webex : nat -> outcome unit
}.

(** [for event in events: ... webex_notifier.send_alert(event)] *)
Definition notify `{PyFormat} `{PyDatetime} `{PyLib} (self : WebexNotifier)
    (events : list AlertEvent.t) (webex : nat -> outcome unit)
    : list webex_request :=
  omap (fun ie => send_alert self ie.2 (webex ie.1)) (imap pair events).

(** [get_fresh_prices]: the application afterwards, the prices returned and
    the requests posted to WebEx; [None] is an exception leaving the
    function. *)
Definition get_fresh_prices `{PyFormat} `{PyDatetime} `{PyLib} (app : App)
    (env : cycle_env) : option (App * list StockPrice.t * list webex_request) :=
  let cached := load_prices (price_cache app) 20 (env_load_time env) (env_get_reply env) in
  '(provider', cache', prices) ←
    match cached with
    | Some prices => Some (price_provider app, price_cache app, prices)
    | None =>
        '(provider', prices) ←
          get_price_snapshot (price_provider app) (env_fetch_now env)
                             (env_finnhub env) (env_random env);
        Some (provider',
              (save_prices (price_cache app) prices (env_save_time env) (env_set_reply env)).1,
              prices)
    end;
  let '(manager', events) :=
    check_alerts (alert_manager app) prices (env_alerts_now env) in
  let posted := notify (webex_notifier app) events (env_webex env) in
  Some ({| price_provider := provider'; price_cache := cache';
           alert_manager := manager'; webex_notifier := webex_notifier app |},
        prices, posted).

(* ===================================================================== *)
(** * The float of a rounded quotient *)
(* ===================================================================== *)

(** What the rounding of [SFdiv] makes of a mantissa [m] between 2^52 and
    2^53 under an exponent [e]: the float [m * 2^e], with the mantissa put
    back under 2^53, or the infinity when the exponent is out of range. The
    properties of [total_seconds] are stated through it. *)
Definition rounded_float (s : bool) (m e : Z) : spec_float :=
  if m <? 2 ^ 53 then
    if e <=? 971 then S754_finite s (Z.to_pos m) e else S754_infinity s
  else
    if e + 1 <=? 971 then S754_finite s (Z.to_pos (2 ^ 52)) (e + 1)
    else S754_infinity s.

(* ===================================================================== *)
(** * Data for concrete runs *)
(* ===================================================================== *)

(** A stand-in for Python's rendering of floats, for runs in which the text
    of the message plays no part; [upper] as it is on ASCII text, the only
    text of these runs. *)
Definition sample_format : PyFormat :=
  {| str_float := fun _ => "<float>"; format_2f := fun _ => "<.2f>";
     upper := ascii_upper; upper_ascii_text := fun _ _ => eq_refl |}.

Definition quote (symbol : string) (price : float) : StockPrice.t :=
  StockPrice.mk symbol price 0%float 0%float 0.

(** The first demonstration rule, as [load_alert_rules] leaves it. *)
Definition aapl_rule : AlertRule.t :=
  AlertRule.mk 1 "AAPL" ">" 0%float "DEMO: AAPL > 0" true 10 None.

(** The startup engine with two more rules: one switched off, one with an
    operator the engine does not know. *)
Definition msft_off : AlertRule.t :=
  AlertRule.mk 4 "MSFT" ">" 0%float "off" false 60 None.

Definition msft_unknown : AlertRule.t :=
  AlertRule.mk 5 "MSFT" "!=" 0%float "unknown" true 60 None.

Definition sample_engine : AlertManager :=
  (@add_rules sample_format (@load_alert_rules sample_format)
     [ mk_rule_args "msft" ">" 0%float "off" false 60;
       mk_rule_args "msft" "!=" 0%float "unknown" true 60 ]).1.

(** A new engine with one rule, [AAPL > 0] with a cooldown of [c] seconds,
    and what two evaluations on a price of 150 return, the first at time 0
    and the second at [now2]: the rule ids of the events of each, and the
    firing times in the history. *)
Definition long_cooldown_engine (c : Z) : AlertManager :=
  (@add_rule sample_format AlertManager_init "AAPL" ">" 0%float "AAPL > 0" true c).1.

Definition fired_twice (c : Z) (now2 : datetime)
    : list Z * list Z * list datetime :=
  let prices := [quote "AAPL" 150%float] in
  let r1 := @check_alerts sample_format (long_cooldown_engine c) prices 0 in
  let r2 := @check_alerts sample_format r1.1 prices now2 in
  (map AlertEvent.rule_id r1.2, map AlertEvent.rule_id r2.2,
   map AlertEvent.triggered_at (_events r2.1)).

(** The double quote, and texts as Redis or the memory copy can hold them:
    a payload whose [ts] is the JSON literal [NaN], which [json.loads]
    accepts, and the payload [save_prices] writes at [time.time() = ts] for
    AAPL at [price]. *)
Definition dq : string := String "034"%char EmptyString.

Definition nan_payload : string :=
  ("{" ++ dq ++ "ts" ++ dq ++ ": NaN, " ++ dq ++ "data" ++ dq ++ ": []}")%string.

Definition epoch_iso : string := "1970-01-01T00:00:00Z".

Definition payload_text (ts price : string) : string :=
  ("{" ++ dq ++ "ts" ++ dq ++ ": " ++ ts ++ ", " ++ dq ++ "data" ++ dq ++ ": [{"
   ++ dq ++ "symbol" ++ dq ++ ": " ++ dq ++ "AAPL" ++ dq ++ ", "
   ++ dq ++ "price" ++ dq ++ ": " ++ price ++ ", "
   ++ dq ++ "change" ++ dq ++ ": 0.0, "
   ++ dq ++ "percentChange" ++ dq ++ ": 0.0, "
   ++ dq ++ "ts" ++ dq ++ ": " ++ dq ++ epoch_iso ++ dq ++ "}]}")%string.

Definition sample_payload : string := payload_text "1000.0" "150.0".

Definition old_payload : string := payload_text "990.0" "140.0".

Definition sample_encode (p : StockPrice.t) : json :=
  JDict [("symbol", JStr (StockPrice.symbol p));
         ("price", JFloat (StockPrice.price p));
         ("change", JFloat (StockPrice.change p));
         ("percentChange", JFloat (StockPrice.percentChange p));
         ("ts", JStr epoch_iso)].

Definition sample_validate (kwargs : list (string * json)) : option StockPrice.t :=
  match dict_get kwargs "symbol", dict_get kwargs "price",
        dict_get kwargs "change", dict_get kwargs "percentChange",
        dict_get kwargs "ts" with
  | Some (JStr s), Some (JFloat p), Some (JFloat c), Some (JFloat pc),
    Some (JStr t) =>
      if String.eqb t epoch_iso then Some (StockPrice.mk s p c pc 0) else None
  | _, _, _, _, _ => None
  end.

Definition payload_blob (ts price : float) : json :=
  JDict [("ts", JFloat ts); ("data", JList [sample_encode (quote "AAPL" price)])].

(** The libraries on the texts and the prices of the runs below, all stamped
    at the epoch: [json.dumps] on the two AAPL payloads, [json.loads] on
    the three texts, the encoder and the validation on prices, UTF-8 on
    ASCII text. *)
Definition table_lib : PyLib :=
  {| json_dumps := fun blob =>
       match blob with
       | JDict (("ts", JFloat ts) :: _) =>
           if PrimFloat.eqb ts 990%float then old_payload else sample_payload
       | _ => sample_payload
       end;
     json_loads := fun text =>
       if String.eqb text sample_payload then
         Some (payload_blob 1000%float 150%float)
       else if String.eqb text old_payload then
         Some (payload_blob 990%float 140%float)
       else if String.eqb text nan_payload then
         Some (JDict [("ts", JFloat nan); ("data", JList [])])
       else None;
     jsonable_encoder := fun prices => JList (map sample_encode prices);
     StockPrice_validate := sample_validate;
     float_of_str := fun _ => None;
     str_encode := list_byte_of_string;
     bytes_decode := fun value => Some (string_of_list_byte value) |}.

Definition memory_cache : PriceCache := PriceCache_init default_key None.

Definition redis_cache : PriceCache :=
  PriceCache_init default_key (Some redis_connection).


Definition new_prices : list StockPrice.t := [quote "AAPL" 150%float].

(** What Redis answers to a [GET] once it holds the given text. *)
Definition redis_holds (text : string) : outcome (option bytes) :=
  Returns (Some (list_byte_of_string text)).

(** Three subscribers, the send to the second one raising: the two others
    are sent the message and stay, the second one is out. *)
Definition second_raises (i : nat) : outcome unit :=
  if Nat.eqb i 1 then Raises else Returns tt.

Definition three_subscribers : ConnectionManager :=
  {| active_connections := [1%positive; 2%positive; 3%positive] |}.

(** A new engine in an empty store, with the first demonstration rule
    registered. *)
Definition demo_objects : option (Objects.store * Objects.manager * Objects.loc) :=
  let '(h, self) := Objects.init ∅ in
  @Objects.add_rule sample_format h self "AAPL" ">" 0%float "DEMO: AAPL > 0" true 10.

Definition aapl_disabled : AlertRule.t :=
  AlertRule.mk 1 "AAPL" ">" 0%float "DEMO: AAPL > 0" false 10 None.

Definition demo_store : Objects.store :=
  match demo_objects with
  | Some (h, _, _) => h
  | None => ∅
  end.

Definition demo_manager : Objects.manager :=
  match demo_objects with
  | Some (_, self, _) => self
  | None => Objects.mk_manager 1%positive 1 1%positive
  end.

Definition demo_state : AlertManager :=
  {| _rules := [(1, aapl_rule)]; _next_id := 2; _events := [] |}.

(** A stand-in for [datetime.isoformat], as [sample_format] is one for the
    floats. *)
Definition sample_datetime : PyDatetime :=
  {| isoformat := fun _ => epoch_iso |}.

(** Two payloads with a [ts] and no price: one without [data], one whose
    [data] is [null]; and a Finnhub quote with the current price [c]. *)
Definition ts_only_payload : string :=
  ("{" ++ dq ++ "ts" ++ dq ++ ": 1000.0}")%string.

Definition null_data_payload : string :=
  ("{" ++ dq ++ "ts" ++ dq ++ ": 1000.0, " ++ dq ++ "data" ++ dq ++ ": null}")%string.

Definition quote_payload : string :=
  ("{" ++ dq ++ "c" ++ dq ++ ": 125.0}")%string.

(** [table_lib] with [json.loads] on these three texts too. *)
Definition quote_lib : PyLib :=
  {| json_dumps := @json_dumps table_lib;
     json_loads := fun text =>
       if String.eqb text ts_only_payload then
         Some (JDict [("ts", JFloat 1000%float)])
       else if String.eqb text null_data_payload then
         Some (JDict [("ts", JFloat 1000%float); ("data", JNull)])
       else if String.eqb text quote_payload then
         Some (JDict [("c", JFloat 125%float)])
       else @json_loads table_lib text;
     jsonable_encoder := @jsonable_encoder table_lib;
     StockPrice_validate := @StockPrice_validate table_lib;
     float_of_str := @float_of_str table_lib;
     str_encode := @str_encode table_lib;
     bytes_decode := @bytes_decode table_lib |}.

(** A cache without Redis whose memory copy is the given text. *)
Definition memory_holding (text : string) : PriceCache :=
  {| key := default_key; backend := "memory"; _memory_blob := Some text;
     redis_client := None |}.

(** A provider with a key for two symbols, as [__init__] builds it, and one
    call of [get_prices] on it: Finnhub answers for the first symbol and is
    down for the second, whose random draw is the middle one. *)
Definition keyed_provider : StockPriceProvider :=
  {| symbols := ["AAPL"; "TSLA"]; api_key := Some "token";
     _fallback_state := <["TSLA" := 150%float]> (<["AAPL" := 100%float]> ∅) |}.

Definition first_answers (i : nat) : outcome bytes :=
  if Nat.eqb i 0 then Returns (list_byte_of_string quote_payload) else Raises.

Definition middle_draw (i : nat) : float := 0.5%float.

Definition keyed_provider_after : StockPriceProvider :=
  {| symbols := ["AAPL"; "TSLA"]; api_key := Some "token";
     _fallback_state := <["TSLA" := 150%float]> (<["AAPL" := 125%float]> ∅) |}.

Definition keyed_snapshot : list StockPrice.t :=
  [ StockPrice.mk "AAPL" 125%float 25%float 25%float 0;
    StockPrice.mk "TSLA" 150%float 0%float 0%float 0 ].

(** The application with a mock provider for AAPL at 150, no Redis, the
    startup rules and no WebEx; a first cycle at [time.time() = 1000] and a
    second one fifteen seconds later. *)
Definition mock_provider : StockPriceProvider :=
  {| symbols := ["AAPL"]; api_key := None;
     _fallback_state := <["AAPL" := 150%float]> ∅ |}.

Definition sample_app : App :=
  {| price_provider := mock_provider; price_cache := memory_cache;
     alert_manager := @load_alert_rules sample_format;
     webex_notifier := WebexNotifier_init None None |}.

Definition cycle_at (t : float) : cycle_env :=
  {| env_load_time := t; env_get_reply := Raises; env_fetch_now := 0;
     env_finnhub := fun _ => Raises; env_random := middle_draw;
     env_save_time := t; env_set_reply := Raises; env_alerts_now := 0;
     env_webex := fun _ => Raises |}.

Definition first_cycle_app : App :=
  match @get_fresh_prices sample_format sample_datetime table_lib
          sample_app (cycle_at 1000%float) with
  | Some (app1, _, _) => app1
  | None => sample_app
  end.

(** An event and the request a notifier with credentials posts for it. *)
Definition sample_event : AlertEvent.t :=
  AlertEvent.mk 1 "AAPL" 150%float 0 "DEMO: AAPL > 0".

Definition sample_request : webex_request :=
  {| request_url := "https://webexapis.com/v1/messages";
     request_data :=
       @str_encode table_lib
         (@json_dumps table_lib
            (JDict [("roomId", JStr "room");
                    ("text", JStr (@_build_message_text sample_format sample_datetime
                                     sample_event))]));
     request_headers := [("Authorization", "Bearer token");
                         ("Content-Type", "application/json")] |}.

(* ===================================================================== *)
(** * [total_seconds]: the division of microseconds by 10^6 *)
(* ===================================================================== *)

(** ** Bit lengths *)
Lemma Zdigits2_pos_spec p :
  1 <= Zdigits2 (Zpos p)
  /\ 2 ^ (Zdigits2 (Zpos p) - 1) <= Zpos p < 2 ^ Zdigits2 (Zpos p).
Proof.
  simpl. induction p as [p IH|p IH|]; simpl digits2_pos.
  - rewrite Pos2Z.inj_succ. destruct IH as (H1 & H2 & H3).
    replace (Z.succ (Z.pos (digits2_pos p)) - 1) with (Z.succ (Z.pos (digits2_pos p) - 1)) by lia.
    rewrite !Z.pow_succ_r by lia. lia.
  - rewrite Pos2Z.inj_succ. destruct IH as (H1 & H2 & H3).
    replace (Z.succ (Z.pos (digits2_pos p)) - 1) with (Z.succ (Z.pos (digits2_pos p) - 1)) by lia.
    rewrite !Z.pow_succ_r by lia. lia.
  - simpl. lia.
Qed.

Lemma Zdigits2_unique n k :
  2 ^ (k - 1) <= n < 2 ^ k -> 1 <= k -> Zdigits2 n = k.
Proof.
  intros [Hlo Hhi] Hk.
  assert (0 < n) by (pose proof (Z.pow_pos_nonneg 2 (k - 1)); lia).
  destruct n as [|p|p]; try lia.
  destruct (Zdigits2_pos_spec p) as (H1 & H2 & H3).
  set (j := Zdigits2 (Z.pos p)) in *. clearbody j.
  destruct (Z.lt_trichotomy j k) as [Hlt|[->|Hgt]]; [|done|].
  - assert (2 ^ j <= 2 ^ (k - 1)) by (apply Z.pow_le_mono_r; lia). lia.
  - assert (2 ^ k <= 2 ^ (j - 1)) by (apply Z.pow_le_mono_r; lia). lia.
Qed.

(** ** Shifting and rounding a mantissa *)
Lemma shr_1_nonneg m r s :
  0 <= m ->
  shr_1 (Build_shr_record m r s) = Build_shr_record (m / 2) (Z.odd m) (r || s).
Proof.
  intros Hm. destruct m as [|[p|p|]|]; try lia; cbn [shr_1].
  - done.
  - f_equal. change (Z.pos p~1) with (2 * Z.pos p + 1).
    apply Z.div_unique with 1; lia.
  - f_equal. change (Z.pos p~0) with (2 * Z.pos p).
    apply Z.div_unique with 0; lia.
  - done.
Qed.

Lemma shr_1_m mrs : 0 <= shr_m mrs -> shr_m (shr_1 mrs) = shr_m mrs / 2.
Proof. destruct mrs as [m r s]. intros Hm. simpl in Hm. by rewrite shr_1_nonneg. Qed.

Lemma iter_shr_1_m p mrs :
  0 <= shr_m mrs ->
  shr_m (SpecFloat.iter_pos shr_1 p mrs) = shr_m mrs / 2 ^ Z.pos p.
Proof.
  revert mrs. induction p as [p IH|p IH|]; intros mrs Hm; cbn [SpecFloat.iter_pos].
  - assert (H1 : 0 <= shr_m (shr_1 mrs)) by (rewrite shr_1_m by done; apply Z.div_pos; lia).
    assert (H2 : 0 <= shr_m (SpecFloat.iter_pos shr_1 p (shr_1 mrs)))
      by (rewrite IH by done; apply Z.div_pos; lia).
    rewrite IH, IH, shr_1_m by done.
    rewrite !Z.div_div by lia. f_equal.
    replace (Z.pos p~1) with (1 + Z.pos p + Z.pos p) by lia.
    rewrite !Z.pow_add_r by lia. lia.
  - assert (H2 : 0 <= shr_m (SpecFloat.iter_pos shr_1 p mrs))
      by (rewrite IH by done; apply Z.div_pos; lia).
    rewrite IH, IH by done.
    rewrite !Z.div_div by lia. f_equal.
    replace (Z.pos p~0) with (Z.pos p + Z.pos p) by lia.
    rewrite !Z.pow_add_r by lia. lia.
  - by rewrite shr_1_m.
Qed.

Lemma shr_record_of_loc_m m l : shr_m (shr_record_of_loc m l) = m.
Proof. by destruct l as [|[]]. Qed.

Lemma loc_of_shr_record_of_loc m l : loc_of_shr_record (shr_record_of_loc m l) = l.
Proof. by destruct l as [|[]]. Qed.

Lemma round_nearest_even_cases m l :
  round_nearest_even m l = m \/ round_nearest_even m l = m + 1.
Proof. destruct l as [|[]]; simpl; auto. destruct (Z.even m); auto. Qed.

Lemma fexp_normal x : -1021 <= x -> fexp prec emax x = x - 53.
Proof. intros Hx. unfold fexp, emin, prec, emax. lia. Qed.

(** The second half of [binary_round_aux]: the rounded mantissa is put
    back under 2^53. *)
Lemma renormalize s m e :
  2 ^ 52 <= m <= 2 ^ 53 -> -1074 <= e ->
  (let '(mrs, e') := shr_fexp prec emax m e loc_Exact in
   match shr_m mrs with
   | Z0 => S754_zero s
   | Zpos m' => if e' <=? emax - prec then S754_finite s m' e' else S754_infinity s
   | _ => S754_nan
   end) = rounded_float s m e.
Proof.
  intros [Hlo Hhi] He. unfold rounded_float, shr_fexp.
  destruct (Z.ltb_spec m (2 ^ 53)) as [Hlt|Hge].
  - rewrite (Zdigits2_unique m 53) by lia.
    rewrite fexp_normal by lia.
    replace (53 + e - 53 - e) with 0 by lia. cbn [shr shr_record_of_loc shr_m].
    destruct m as [|p|p]; try lia. change (emax - prec) with 971. done.
  - assert (m = 2 ^ 53) as -> by lia.
    rewrite (Zdigits2_unique (2 ^ 53) 54) by lia.
    rewrite fexp_normal by lia.
    replace (54 + e - 53 - e) with 1 by lia.
    change (emax - prec) with 971. cbn -[Z.leb Z.add]. done.
Qed.

Lemma shr_snd mrs e n : 0 <= n -> (shr mrs e n).2 = e + n.
Proof. intros Hn. unfold shr. destruct n; simpl; lia. Qed.

Lemma shr_fst_m mrs e n :
  0 <= n -> 0 <= shr_m mrs -> shr_m (shr mrs e n).1 = shr_m mrs / 2 ^ n.
Proof.
  intros Hn Hm. unfold shr. destruct n as [|n'|n']; try lia.
  - simpl. by rewrite Z.div_1_r.
  - cbn [fst]. by rewrite iter_shr_1_m.
Qed.

(** [binary_round_aux] on a mantissa of at least 53 bits: the mantissa
    loses the bits beyond 53, is rounded on what it lost, and is put back
    under 2^53. *)
Lemma binary_round_aux_shape s q e l :
  2 ^ 52 <= q -> -1074 <= e ->
  let n := Zdigits2 q - 53 in
  let mrs := (shr (shr_record_of_loc q l) e n).1 in
  let m := round_nearest_even (shr_m mrs) (loc_of_shr_record mrs) in
  0 <= n
  /\ shr_m mrs = q / 2 ^ n
  /\ 2 ^ 52 <= q / 2 ^ n < 2 ^ 53
  /\ binary_round_aux prec emax s q e l = rounded_float s m (e + n).
Proof.
  intros Hq He n mrs m.
  assert (Hpos : 0 < q) by lia.
  destruct q as [|p|p]; try lia.
  destruct (Zdigits2_pos_spec p) as (Hk1 & Hk2 & Hk3).
  set (k := Zdigits2 (Z.pos p)) in *.
  assert (Hk : 53 <= k).
  { destruct (Z.le_gt_cases 53 k) as [|Hlt]; [done|].
    assert (2 ^ k <= 2 ^ 52) by (apply Z.pow_le_mono_r; lia). lia. }
  assert (Hn : 0 <= n) by (unfold n; lia).
  assert (Hm : shr_m mrs = Z.pos p / 2 ^ n).
  { unfold mrs. rewrite shr_fst_m; rewrite ?shr_record_of_loc_m; [done|lia..]. }
  assert (Hrange : 2 ^ 52 <= Z.pos p / 2 ^ n < 2 ^ 53).
  { assert (H2n : 0 < 2 ^ n) by (apply Z.pow_pos_nonneg; lia).
    assert (E1 : 2 ^ (k - 1) = 2 ^ 52 * 2 ^ n)
      by (rewrite <- Z.pow_add_r by lia; f_equal; unfold n; lia).
    assert (E2 : 2 ^ k = 2 ^ 53 * 2 ^ n)
      by (rewrite <- Z.pow_add_r by lia; f_equal; unfold n; lia).
    split.
    - apply Z.div_le_lower_bound; lia.
    - apply Z.div_lt_upper_bound; lia. }
  split; [done|]. split; [done|]. split; [done|].
  unfold binary_round_aux, shr_fexp. fold k.
  rewrite fexp_normal by lia.
  replace (k + e - 53 - e) with n by (unfold n; lia).
  pose proof (shr_snd (shr_record_of_loc (Z.pos p) l) e n Hn) as Hsnd.
  fold mrs in Hsnd.
  rewrite (surjective_pairing (shr (shr_record_of_loc (Z.pos p) l) e n)).
  fold mrs. rewrite Hsnd. fold m.
  apply renormalize; [|lia].
  unfold m. rewrite Hm.
  destruct (round_nearest_even_cases (Z.pos p / 2 ^ n) (loc_of_shr_record mrs)) as [-> | ->]; lia.
Qed.

(** The quotient and the remainder [SFdiv] starts from, for a dividend of
    [d] microseconds: [d] is first scaled to 73 bits when it has fewer. *)
Lemma SFdiv_core_int d :
  let s := Z.max (73 - Zdigits2 (Z.pos d)) 0 in
  let N := Z.pos d * 2 ^ s in
  SFdiv_core_binary prec emax (Z.pos d) 0 1000000 0
  = (N / 1000000, - s, new_location 1000000 (N mod 1000000)).
Proof.
  intros s N. unfold SFdiv_core_binary.
  change (Zdigits2 1000000) with 20.
  destruct (Zdigits2_pos_spec d) as (Hk & _).
  set (k := Zdigits2 (Z.pos d)) in *.
  rewrite fexp_normal by lia.
  replace (Z.min (k + 0 - (20 + 0) - 53) (0 - 0)) with (- s) by (unfold s; lia).
  replace (0 - 0 - - s) with s by lia.
  assert (Hs : 0 <= s) by (unfold s; lia).
  assert (HN : match s with
               | Z.pos _ => Z.shiftl (Z.pos d) s
               | 0 => Z.pos d
               | Z.neg _ => 0
               end = N).
  { unfold N. destruct s as [|s'|s'] eqn:Es; try lia.
    by rewrite Z.shiftl_mul_pow2. }
  rewrite HN.
  unfold Z.div, Z.modulo. by destruct (Z.div_eucl N 1000000).
Qed.

(** Rounding on the remainder of the division is rounding to nearest. *)
Lemma nearest_no_shift N :
  0 <= N ->
  let m := round_nearest_even (N / 1000000) (new_location 1000000 (N mod 1000000)) in
  (2 * m - 1) * 1000000 <= 2 * N <= (2 * m + 1) * 1000000.
Proof.
  intros HN m. subst m.
  pose proof (Z.div_mod N 1000000 ltac:(lia)) as Hdiv.
  pose proof (Z.mod_pos_bound N 1000000 ltac:(lia)) as Hr.
  set (q := N / 1000000) in *. set (r := N mod 1000000) in *.
  unfold new_location. change (Z.even 1000000) with true. cbv iota.
  unfold new_location_even.
  destruct (Z.eqb_spec r 0) as [Hr0|Hr0]; simpl; [lia|].
  destruct (Z.compare_spec (2 * r) 1000000); simpl; try lia.
  destruct (Z.even q); lia.
Qed.

Lemma nearest_one_shift N :
  0 <= N ->
  let mrs := shr_1 (shr_record_of_loc (N / 1000000)
                      (new_location 1000000 (N mod 1000000))) in
  let m := round_nearest_even (shr_m mrs) (loc_of_shr_record mrs) in
  (2 * m - 1) * 1000000 <= N <= (2 * m + 1) * 1000000.
Proof.
  intros HN mrs m. subst m mrs.
  pose proof (Z.div_mod N 1000000 ltac:(lia)) as Hdiv.
  pose proof (Z.mod_pos_bound N 1000000 ltac:(lia)) as Hr.
  assert (Hq : 0 <= N / 1000000) by (apply Z.div_pos; lia).
  set (q := N / 1000000) in *. set (r := N mod 1000000) in *.
  pose proof (Z.div_mod q 2 ltac:(lia)) as Hdiv2.
  pose proof (Z.mod_pos_bound q 2 ltac:(lia)) as Hb.
  assert (Hodd : Z.odd q = (q mod 2 =? 1)).
  { rewrite Zmod_odd. by destruct (Z.odd q). }
  unfold new_location. change (Z.even 1000000) with true. cbv iota.
  unfold new_location_even.
  destruct (Z.eqb_spec r 0) as [Hr0|Hr0].
  - cbn [shr_record_of_loc]. rewrite shr_1_nonneg by done. cbn [shr_m loc_of_shr_record orb].
    rewrite Hodd. destruct (Z.eqb_spec (q mod 2) 1); simpl; [|lia].
    destruct (Z.even (q / 2)); lia.
  - destruct (2 * r ?= 1000000); cbn [shr_record_of_loc];
      rewrite shr_1_nonneg by done; cbn [shr_m loc_of_shr_record orb];
      rewrite Hodd; destruct (Z.eqb_spec (q mod 2) 1); simpl; lia.
Qed.

(** The division of [d] microseconds by 10^6, in full: a mantissa [m] of
    53 bits under an exponent [e], the quotient lying in the binade of
    [e]; when [e] is negative, [m] is the integer nearest to the quotient
    counted in units of [2^e]. *)
Lemma SFdiv_int_facts sx d :
  exists m e,
    SFdiv prec emax (S754_finite sx d 0) (S754_finite false 1000000 0)
    = rounded_float sx m e
    /\ 2 ^ 52 <= m <= 2 ^ 53
    /\ -72 <= e
    /\ (e < 0 ->
        2 ^ 52 * 1000000 <= Z.pos d * 2 ^ (- e)
        /\ (2 * m - 1) * 1000000 <= 2 * (Z.pos d * 2 ^ (- e)) <= (2 * m + 1) * 1000000)
    /\ (0 <= e -> 2 ^ 52 * 1000000 * 2 ^ e <= Z.pos d).
Proof.
  unfold SFdiv. rewrite SFdiv_core_int.
  destruct (Zdigits2_pos_spec d) as (Hk1 & Hk2 & Hk3).
  set (k := Zdigits2 (Z.pos d)) in *.
  set (s := Z.max (73 - k) 0). set (N := Z.pos d * 2 ^ s).
  replace (xorb sx false) with sx by (by destruct sx).
  assert (Hs : 0 <= s) by (unfold s; lia).
  assert (H2s : 0 < 2 ^ s) by (apply Z.pow_pos_nonneg; lia).
  assert (HN72 : 2 ^ 72 <= N).
  { unfold N. destruct (Z.le_gt_cases 73 k) as [Hge|Hlt].
    - replace s with 0 by (unfold s; lia). rewrite Z.mul_1_r.
      assert (2 ^ 72 <= 2 ^ (k - 1)) by (apply Z.pow_le_mono_r; lia). lia.
    - replace s with (73 - k) by (unfold s; lia).
      assert (E : 2 ^ 72 = 2 ^ (k - 1) * 2 ^ (73 - k))
        by (rewrite <- Z.pow_add_r by lia; f_equal; lia).
      rewrite E. apply Z.mul_le_mono_nonneg_r; lia. }
  assert (HN : 0 <= N) by lia.
  pose proof (Z.div_mod N 1000000 ltac:(lia)) as Hdiv.
  pose proof (Z.mod_pos_bound N 1000000 ltac:(lia)) as Hr.
  assert (Hq52 : 2 ^ 52 <= N / 1000000) by (apply Z.div_le_lower_bound; lia).
  destruct (binary_round_aux_shape sx (N / 1000000) (- s)
              (new_location 1000000 (N mod 1000000)) Hq52 ltac:(unfold s; lia))
    as (Hn & Hm & Hrange & Hres).
  set (q := N / 1000000) in *. set (r := N mod 1000000) in *.
  set (n := Zdigits2 q - 53) in *.
  set (mrs := (shr (shr_record_of_loc q (new_location 1000000 r)) (- s) n).1) in *.
  set (m := round_nearest_even (shr_m mrs) (loc_of_shr_record mrs)) in *.
  assert (H2n : 0 < 2 ^ n) by (apply Z.pow_pos_nonneg; lia).
  assert (Hqn : 2 ^ 52 * 2 ^ n <= q).
  { pose proof (Z.div_mod q (2 ^ n) ltac:(lia)) as Hd.
    pose proof (Z.mod_pos_bound q (2 ^ n) ltac:(lia)) as Hb. nia. }
  assert (Hbin : 2 ^ 52 * 2 ^ n * 1000000 <= N) by nia.
  exists m, (- s + n). split; [exact Hres|]. split.
  { unfold m. rewrite Hm.
    destruct (round_nearest_even_cases (q / 2 ^ n) (loc_of_shr_record mrs)) as [-> | ->]; lia. }
  split; [unfold s; lia|]. split.
  - intros He. replace (- (- s + n)) with (s - n) by lia.
    assert (Hs0 : 0 < s) by lia.
    assert (Hk73 : k < 73) by (unfold s in Hs0; lia).
    assert (HN73 : N < 2 ^ 73).
    { unfold N. replace s with (73 - k) by (unfold s; lia).
      assert (E : 2 ^ 73 = 2 ^ k * 2 ^ (73 - k))
        by (rewrite <- Z.pow_add_r by lia; f_equal; lia).
      rewrite E. apply Z.mul_lt_mono_pos_r; lia. }
    assert (Hq54 : q < 2 ^ 54) by (apply Z.div_lt_upper_bound; lia).
    assert (Hn1 : n = 0 \/ n = 1).
    { destruct (Z.le_gt_cases 2 n) as [Hge|]; [|lia].
      assert (2 ^ 2 <= 2 ^ n) by (apply Z.pow_le_mono_r; lia). lia. }
    destruct Hn1 as [Hn0|Hn1].
    + assert (Hm0 : m = round_nearest_even q (new_location 1000000 r)).
      { unfold m, mrs. rewrite Hn0. cbn [shr fst].
        by rewrite shr_record_of_loc_m, loc_of_shr_record_of_loc. }
      pose proof (nearest_no_shift N HN) as Hnear. cbv zeta in Hnear.
      fold q r in Hnear. rewrite <- Hm0 in Hnear.
      rewrite Hn0 in *. rewrite Z.sub_0_r. fold N. lia.
    + assert (Hm1 : m = round_nearest_even
                          (shr_m (shr_1 (shr_record_of_loc q (new_location 1000000 r))))
                          (loc_of_shr_record
                             (shr_1 (shr_record_of_loc q (new_location 1000000 r))))).
      { unfold m, mrs. rewrite Hn1. reflexivity. }
      pose proof (nearest_one_shift N HN) as Hnear. cbv zeta in Hnear.
      fold q r in Hnear. rewrite <- Hm1 in Hnear.
      assert (E : N = Z.pos d * 2 ^ (s - n) * 2).
      { unfold N. rewrite Hn1. replace s with (1 + (s - 1)) at 1 by lia.
        rewrite Z.pow_add_r by lia. lia. }
      rewrite Hn1 in Hbin. lia.
  - intros He.
    assert (E : 2 ^ n = 2 ^ (- s + n) * 2 ^ s)
      by (rewrite <- Z.pow_add_r by lia; f_equal; lia).
    rewrite E in Hbin. unfold N in Hbin.
    apply (Z.mul_le_mono_pos_r _ _ (2 ^ s)); [lia|]. lia.
Qed.

Lemma rounded_float_valid s m e :
  2 ^ 52 <= m <= 2 ^ 53 -> -1074 <= e ->
  valid_binary (rounded_float s m e) = true.
Proof.
  intros Hm He. unfold rounded_float.
  assert (Hcanon : forall m' e', 2 ^ 52 <= m' < 2 ^ 53 -> -1074 <= e' -> e' <= 971 ->
            valid_binary (S754_finite s (Z.to_pos m') e') = true).
  { intros m' e' Hm' He' Hmax.
    unfold valid_binary, SpecFloat.valid_binary, bounded, canonical_mantissa.
    change (Z.pos (digits2_pos (Z.to_pos m'))) with (Zdigits2 (Z.pos (Z.to_pos m'))).
    rewrite Z2Pos.id by lia. rewrite (Zdigits2_unique m' 53) by lia.
    rewrite fexp_normal by lia. change (emax - prec) with 971.
    apply andb_true_intro. split; [apply Z.eqb_eq; lia|apply Z.leb_le; lia]. }
  destruct (Z.ltb_spec m (2 ^ 53)).
  - destruct (Z.leb_spec e 971); [|done]. apply Hcanon; lia.
  - destruct (Z.leb_spec (e + 1) 971); [|done]. apply Hcanon; lia.
Qed.

(** Comparing what the division gives with an [int]. *)
Lemma float_ge_int_rounded_pos m e c :
  2 ^ 52 <= m <= 2 ^ 53 -> -1074 <= e ->
  (e < 0 -> (float_ge_int (SF2Prim (rounded_float false m e)) c = true <-> c * 2 ^ (- e) <= m))
  /\ (0 <= e -> c <= 2 ^ 52 -> float_ge_int (SF2Prim (rounded_float false m e)) c = true).
Proof.
  intros Hm He. unfold float_ge_int, float_compare_int.
  rewrite Prim2SF_SF2Prim by (by apply rounded_float_valid).
  unfold rounded_float. split.
  - intros Hneg. destruct (Z.ltb_spec m (2 ^ 53)).
    + destruct (Z.leb_spec e 971); [|lia].
      rewrite Z2Pos.id by lia.
      destruct (Z.leb_spec 0 e); [lia|].
      destruct (Z.compare_spec m (c * 2 ^ (- e))); split; intros; try done; lia.
    + destruct (Z.leb_spec (e + 1) 971); [|lia].
      rewrite Z2Pos.id by lia. assert (m = 2 ^ 53) as -> by lia.
      assert (E : 2 ^ (- e) = 2 * 2 ^ (- (e + 1))).
      { replace (- e) with (1 + - (e + 1)) by lia. by rewrite Z.pow_add_r by lia. }
      destruct (Z.leb_spec 0 (e + 1)).
      * assert (He1 : e + 1 = 0) by lia. rewrite He1 in *.
        change (2 ^ 0) with 1. change (- 0) with 0 in E. change (2 ^ 0) with 1 in E.
        rewrite Z.mul_1_r, E.
        destruct (Z.compare_spec (2 ^ 52) c); split; intros; try done; lia.
      * rewrite E.
        destruct (Z.compare_spec (2 ^ 52) (c * 2 ^ (- (e + 1)))); split; intros; try done; lia.
  - intros Hpos Hc.
    assert (H2e : 1 <= 2 ^ e) by (pose proof (Z.pow_pos_nonneg 2 e); lia).
    destruct (Z.ltb_spec m (2 ^ 53)).
    + destruct (Z.leb_spec e 971); [|done].
      rewrite Z2Pos.id by lia. destruct (Z.leb_spec 0 e); [|lia].
      destruct (Z.compare_spec (m * 2 ^ e) c); try done. nia.
    + destruct (Z.leb_spec (e + 1) 971); [|done].
      rewrite Z2Pos.id by lia. destruct (Z.leb_spec 0 (e + 1)); [|lia].
      assert (H2e' : 1 <= 2 ^ (e + 1)) by (pose proof (Z.pow_pos_nonneg 2 (e + 1)); lia).
      destruct (Z.compare_spec (2 ^ 52 * 2 ^ (e + 1)) c); try done. nia.
Qed.

Lemma float_ge_int_rounded_neg m e c :
  2 ^ 52 <= m <= 2 ^ 53 -> -1074 <= e ->
  (e < 0 -> (float_ge_int (SF2Prim (rounded_float true m e)) c = true <-> c * 2 ^ (- e) <= - m))
  /\ (- 2 ^ 52 < c -> (e < 0 -> 0 <= c) ->
      float_ge_int (SF2Prim (rounded_float true m e)) c = false).
Proof.
  intros Hm He. unfold float_ge_int, float_compare_int.
  rewrite Prim2SF_SF2Prim by (by apply rounded_float_valid).
  unfold rounded_float. split.
  - intros Hneg. destruct (Z.ltb_spec m (2 ^ 53)).
    + destruct (Z.leb_spec e 971); [|lia].
      change (Z.neg (Z.to_pos m)) with (- Z.pos (Z.to_pos m)).
      rewrite Z2Pos.id by lia.
      destruct (Z.leb_spec 0 e); [lia|].
      destruct (Z.compare_spec (- m) (c * 2 ^ (- e))); split; intros; try done; lia.
    + destruct (Z.leb_spec (e + 1) 971); [|lia].
      change (Z.neg (Z.to_pos (2 ^ 52))) with (- Z.pos (Z.to_pos (2 ^ 52))).
      rewrite Z2Pos.id by lia. assert (m = 2 ^ 53) as -> by lia.
      assert (E : 2 ^ (- e) = 2 * 2 ^ (- (e + 1))).
      { replace (- e) with (1 + - (e + 1)) by lia. by rewrite Z.pow_add_r by lia. }
      destruct (Z.leb_spec 0 (e + 1)).
      * assert (He1 : e + 1 = 0) by lia. rewrite He1 in *.
        change (2 ^ 0) with 1. change (- 0) with 0 in E. change (2 ^ 0) with 1 in E.
        rewrite Z.mul_1_r, E.
        destruct (Z.compare_spec (- 2 ^ 52) c); split; intros; try done; lia.
      * rewrite E.
        destruct (Z.compare_spec (- 2 ^ 52) (c * 2 ^ (- (e + 1)))); split; intros; try done; lia.
  - intros Hc Hc0.
    destruct (Z.ltb_spec m (2 ^ 53)).
    + destruct (Z.leb_spec e 971); [|done].
      change (Z.neg (Z.to_pos m)) with (- Z.pos (Z.to_pos m)).
      rewrite Z2Pos.id by lia. destruct (Z.leb_spec 0 e).
      * assert (H2e : 1 <= 2 ^ e) by (pose proof (Z.pow_pos_nonneg 2 e); lia).
        destruct (Z.compare_spec (- m * 2 ^ e) c); try done; nia.
      * assert (H2e : 1 <= 2 ^ (- e)) by (pose proof (Z.pow_pos_nonneg 2 (- e)); lia).
        destruct (Z.compare_spec (- m) (c * 2 ^ (- e))); try done; nia.
    + destruct (Z.leb_spec (e + 1) 971); [|done].
      change (Z.neg (Z.to_pos (2 ^ 52))) with (- Z.pos (Z.to_pos (2 ^ 52))).
      rewrite Z2Pos.id by lia. destruct (Z.leb_spec 0 (e + 1)).
      * assert (H2e : 1 <= 2 ^ (e + 1)) by (pose proof (Z.pow_pos_nonneg 2 (e + 1)); lia).
        destruct (Z.compare_spec (- 2 ^ 52 * 2 ^ (e + 1)) c); try done; nia.
      * assert (H2e : 1 <= 2 ^ (- (e + 1))) by (pose proof (Z.pow_pos_nonneg 2 (- (e + 1))); lia).
        destruct (Z.compare_spec (- 2 ^ 52) (c * 2 ^ (- (e + 1)))); try done; nia.
Qed.

Lemma total_seconds_zero c :
  float_ge_int (total_seconds 0) c = true <-> c <= 0.
Proof.
  unfold total_seconds, float_ge_int, float_compare_int.
  change (SFdiv prec emax (SF_of_int 0) (SF_of_int 1000000)) with (S754_zero false).
  rewrite Prim2SF_SF2Prim by done.
  destruct (Z.compare_spec 0 c); split; intros; try done; lia.
Qed.

(** A negative [timedelta] has a negative [total_seconds()]. *)
Lemma total_seconds_negative d c :
  d < 0 -> 0 <= c -> float_ge_int (total_seconds d) c = false.
Proof.
  intros Hd Hc. destruct d as [|p|p]; try lia.
  unfold total_seconds. cbn [SF_of_int].
  destruct (SFdiv_int_facts true p) as (m & e & -> & Hm & He & _).
  apply (float_ge_int_rounded_neg m e c); lia.
Qed.

(** The test of [_can_trigger] is the test on the exact quotient as long
    as the cooldown is not beyond 2^34 seconds in size: the floats around
    such a number of seconds are less than two microseconds apart. *)
Lemma total_seconds_ge_exact d c :
  - 2 ^ 34 < c <= 2 ^ 34 ->
  float_ge_int (total_seconds d) c = true <-> c * 1000000 <= d.
Proof.
  intros Hc. destruct d as [|p|p].
  - rewrite total_seconds_zero. lia.
  - unfold total_seconds. cbn [SF_of_int].
    destruct (SFdiv_int_facts false p) as (m & e & -> & Hm & He & Hneg & Hpos).
    destruct (Z.lt_ge_cases e 0) as [He0|He0].
    + destruct (float_ge_int_rounded_pos m e c ltac:(lia) ltac:(lia)) as [Hiff _].
      rewrite (Hiff He0). clear Hiff Hpos.
      destruct (Hneg He0) as (Hbin & Hlo & Hhi). clear Hneg.
      set (X := 2 ^ (- e)) in *.
      assert (HX : 0 < X) by (apply Z.pow_pos_nonneg; lia).
      split.
      * intros Hle. destruct (Z.le_gt_cases (c * 1000000) (Z.pos p)) as [|Hgt]; [done|].
        exfalso.
        assert (HX19 : 2 ^ 19 <= X).
        { destruct (Z.le_gt_cases 19 (- e)) as [|Hsmall];
            [apply Z.pow_le_mono_r; lia|].
          assert (X <= 2 ^ 18) by (apply Z.pow_le_mono_r; lia). nia. }
        nia.
      * intros Hle. destruct (Z.le_gt_cases (c * X) m) as [|Hgt]; [done|].
        exfalso. nia.
    + destruct (float_ge_int_rounded_pos m e c ltac:(lia) ltac:(lia)) as [_ Htrue].
      rewrite (Htrue He0) by lia.
      specialize (Hpos He0).
      assert (H2e : 1 <= 2 ^ e) by (pose proof (Z.pow_pos_nonneg 2 e); lia).
      split; [|done]. intros _. nia.
  - unfold total_seconds. cbn [SF_of_int].
    destruct (SFdiv_int_facts true p) as (m & e & -> & Hm & He & Hneg & Hpos).
    destruct (Z.le_gt_cases 0 c) as [Hc0|Hc0].
    { destruct (float_ge_int_rounded_neg m e c ltac:(lia) ltac:(lia)) as [_ Hfalse].
      rewrite Hfalse by lia. split; [done|]. lia. }
    destruct (Z.lt_ge_cases e 0) as [He0|He0].
    + destruct (float_ge_int_rounded_neg m e c ltac:(lia) ltac:(lia)) as [Hiff _].
      rewrite (Hiff He0). clear Hiff Hpos.
      destruct (Hneg He0) as (Hbin & Hlo & Hhi). clear Hneg.
      set (X := 2 ^ (- e)) in *.
      assert (HX : 0 < X) by (apply Z.pow_pos_nonneg; lia).
      split.
      * intros Hle. destruct (Z.le_gt_cases (c * 1000000) (Z.neg p)) as [|Hgt]; [done|].
        exfalso.
        assert (HX18 : X <= 2 ^ 18).
        { destruct (Z.le_gt_cases (- e) 18) as [|Hbig];
            [apply Z.pow_le_mono_r; lia|].
          assert (2 ^ 19 <= X) by (apply Z.pow_le_mono_r; lia). nia. }
        nia.
      * intros Hle. destruct (Z.le_gt_cases (c * X) (- m)) as [|Hgt]; [done|].
        exfalso. nia.
    + destruct (float_ge_int_rounded_neg m e c ltac:(lia) ltac:(lia)) as [_ Hfalse].
      rewrite Hfalse by lia.
      specialize (Hpos He0).
      assert (H2e : 1 <= 2 ^ e) by (pose proof (Z.pow_pos_nonneg 2 e); lia).
      split; [done|]. intros Hle. exfalso. nia.
Qed.

(* ===================================================================== *)
(** * Properties of the alert engine *)
(* ===================================================================== *)

Section AlertEngine.
Context `{PyFormat}.

(** ** Upper case on ASCII text *)

Lemma upper_ascii_idempotent c : upper_ascii (upper_ascii c) = upper_ascii c.
Proof. destruct c as [[] [] [] [] [] [] [] []]; reflexivity. Qed.

Lemma upper_ascii_below_128 c :
  (nat_of_ascii c <? 128)%nat = true ->
  (nat_of_ascii (upper_ascii c) <? 128)%nat = true.
Proof. destruct c as [[] [] [] [] [] [] [] []]; vm_compute; congruence. Qed.

Lemma ascii_upper_idempotent s : ascii_upper (ascii_upper s) = ascii_upper s.
Proof.
  induction s as [|c s IH]; [done|].
  simpl. by rewrite upper_ascii_idempotent, IH.
Qed.

Lemma ascii_upper_is_ascii s : is_ascii s = true -> is_ascii (ascii_upper s) = true.
Proof.
  induction s as [|c s IH]; [done|].
  simpl. intros [Hc Hs]%andb_prop.
  by rewrite (upper_ascii_below_128 c Hc), IH.
Qed.

(** On ASCII text [s.upper().upper()] is [s.upper()]. *)
Lemma upper_upper_ascii_text s : is_ascii s = true -> upper (upper s) = upper s.
Proof.
  intros Hs. rewrite (upper_ascii_text s Hs).
  rewrite (upper_ascii_text _ (ascii_upper_is_ascii s Hs)).
  apply ascii_upper_idempotent.
Qed.

(** The characters of [ascii_upper s], one by one against those of [s]. *)
Lemma ascii_upper_get s k :
  String.get k (ascii_upper s) = upper_ascii <$> String.get k s.
Proof.
  revert k. induction s as [|c s IH]; intros k; [done|].
  destruct k as [|k]; [done|]. simpl. apply IH.
Qed.

Lemma ascii_upper_length s : String.length (ascii_upper s) = String.length s.
Proof. induction s as [|c s IH]; [done|]. simpl. by rewrite IH. Qed.

Lemma upper_ascii_uppercased c : upper_ascii c = uppercased_char c.
Proof. destruct c as [[] [] [] [] [] [] [] []]; reflexivity. Qed.

(** ** The loop body *)

Lemma check_rule_fires now pbs rule :
  fires now pbs rule = true ->
  exists event,
    check_rule now pbs rule = (AlertRule.set_last_triggered rule now, Some event)
    /\ AlertEvent.rule_id event = AlertRule.id rule
    /\ event_of_rule now pbs (AlertRule.id rule, rule) event.
Proof.
  unfold fires, check_rule, event_of_rule. intros Hf.
  destruct (AlertRule.enabled rule); simpl in *; [|discriminate].
  destruct (pbs !! upper (AlertRule.symbol rule)) as [p|]; [|discriminate].
  apply andb_prop in Hf as [-> ->]. simpl. eexists. split; [reflexivity|].
  by simpl.
Qed.

Lemma check_rule_quiet now pbs rule :
  fires now pbs rule = false -> check_rule now pbs rule = (rule, None).
Proof.
  unfold fires, check_rule. intros Hf.
  destruct (AlertRule.enabled rule); simpl in *; [|done].
  destruct (pbs !! upper (AlertRule.symbol rule)) as [p|]; [|done].
  destruct (_condition_met rule (StockPrice.price p)); simpl in *; [|done].
  by rewrite Hf.
Qed.

Lemma check_rule_event_id now pbs rule rule' event :
  check_rule now pbs rule = (rule', Some event) ->
  fires now pbs rule = true
  /\ rule' = AlertRule.set_last_triggered rule now
  /\ AlertEvent.rule_id event = AlertRule.id rule.
Proof.
  intros Hc. destruct (fires now pbs rule) eqn:Hf.
  - destruct (check_rule_fires _ _ _ Hf) as (e & He & Hid & _).
    rewrite He in Hc. by simplify_eq.
  - rewrite (check_rule_quiet _ _ _ Hf) in Hc. discriminate.
Qed.

(** ** The loop: a map over the rule table and a filter for the events *)

Lemma check_loop_spec now pbs rules events self_events :
  check_loop now pbs rules events self_events
  = (map (step_rule now pbs) rules,
     events ++ omap (step_event now pbs) rules,
     self_events ++ omap (step_event now pbs) rules).
Proof.
  revert events self_events.
  induction rules as [|[k rule] rest IH]; intros events self_events.
  - simpl. by rewrite !app_nil_r.
  - cbn [check_loop map omap list_omap].
    change (step_rule now pbs (k, rule)) with (k, (check_rule now pbs rule).1).
    change (step_event now pbs (k, rule)) with (check_rule now pbs rule).2.
    destruct (check_rule now pbs rule) as [rule' [event|]]; cbn [fst snd];
      rewrite IH; [|done].
    by rewrite <- !app_assoc.
Qed.

Lemma last_n_short {A} (n : nat) (l : list A) :
  (length l <= n)%nat -> last_n n l = l.
Proof. intros Hl. unfold last_n. by replace (length l - n)%nat with 0%nat by lia. Qed.

Lemma last_n_length {A} (n : nat) (l : list A) :
  (length (last_n n l) <= n)%nat.
Proof. unfold last_n. rewrite length_drop. lia. Qed.

Lemma last_n_app {A} (n : nat) (l1 l2 : list A) :
  last_n n (last_n n l1 ++ l2) = last_n n (l1 ++ l2).
Proof.
  unfold last_n. rewrite !length_app, length_drop, !drop_app, drop_drop.
  rewrite length_drop. f_equal; f_equal; lia.
Qed.

(** [check_alerts] in closed form. *)
Lemma check_alerts_spec self prices now :
  check_alerts self prices now
  = ({| _rules := map (step_rule now (price_index prices)) (_rules self);
        _next_id := _next_id self;
        _events :=
          match _rules self with
          | [] => _events self
          | _ :: _ =>
              last_n 50 (_events self
                         ++ omap (step_event now (price_index prices)) (_rules self))
          end |},
     omap (step_event now (price_index prices)) (_rules self)).
Proof.
  unfold check_alerts. destruct (_rules self) as [|kr rest] eqn:Hr.
  - simpl. destruct self; simpl in *. by subst.
  - rewrite check_loop_spec, app_nil_l.
    set (fired := omap _ (kr :: rest)).
    f_equal. f_equal.
    destruct (Nat.ltb_spec 50 (length (_events self ++ fired))); [done|].
    by rewrite last_n_short.
Qed.

(** ** Keys and rule ids *)

Lemma NoDup_fst_agree {V} (d : list (Z * V)) k v1 v2 :
  NoDup (map fst d) -> (k, v1) ∈ d -> (k, v2) ∈ d -> v1 = v2.
Proof.
  induction d as [|[k' v'] d IH]; simpl; intros Hnd H1 H2.
  - by apply elem_of_nil in H1.
  - apply NoDup_cons in Hnd as [Hk Hnd].
    apply elem_of_cons in H1 as [H1|H1], H2 as [H2|H2]; simplify_eq; auto.
    + exfalso. apply Hk. change k' with (fst (k', v2)).
      by apply (list_elem_of_fmap_2 fst).
    + exfalso. apply Hk. change k' with (fst (k', v1)).
      by apply (list_elem_of_fmap_2 fst).
Qed.

(** On a well-formed table an event carries the id of one rule only, so
    an event with the id of [rule] says that [rule] fired. *)
Lemma event_of_rule_fires self now pbs k rule event :
  rules_wf self ->
  (k, rule) ∈ _rules self ->
  event ∈ omap (step_event now pbs) (_rules self) ->
  AlertEvent.rule_id event = AlertRule.id rule ->
  fires now pbs rule = true.
Proof.
  intros (Hnd & Hid & _) Hin Hev Heq.
  apply list_elem_of_omap in Hev as ([k' rule'] & Hin' & Hstep).
  unfold step_event in Hstep. simpl in Hstep.
  destruct (check_rule now pbs rule') as [r1 o] eqn:Hc. simpl in Hstep. subst o.
  apply check_rule_event_id in Hc as (Hf & _ & Hid').
  rewrite Forall_forall in Hid.
  pose proof (Hid _ Hin) as Hk. pose proof (Hid _ Hin') as Hk'.
  cbn [fst snd] in Hk, Hk'.
  assert (Hkk : k' = k) by congruence.
  rewrite Hkk in Hin'.
  by rewrite (NoDup_fst_agree _ _ _ _ Hnd Hin Hin').
Qed.

Lemma fires_has_event now pbs (rules : list (Z * AlertRule.t)) k rule :
  (k, rule) ∈ rules ->
  fires now pbs rule = true ->
  exists event,
    event ∈ omap (step_event now pbs) rules
    /\ AlertEvent.rule_id event = AlertRule.id rule
    /\ AlertEvent.triggered_at event = now.
Proof.
  intros Hin Hf.
  destruct (check_rule_fires _ _ _ Hf) as (event & Hc & Hid & _ & _ & _ & Hat & _).
  exists event. split; [|done].
  apply list_elem_of_omap. exists (k, rule). split; [done|].
  unfold step_event. simpl. by rewrite Hc.
Qed.

Lemma step_rule_quiet now pbs kr :
  fires now pbs kr.2 = false -> step_rule now pbs kr = kr.
Proof.
  intros Hf. unfold step_rule. rewrite (check_rule_quiet _ _ _ Hf).
  by destruct kr.
Qed.

Lemma step_rule_fires now pbs kr :
  fires now pbs kr.2 = true ->
  step_rule now pbs kr = (kr.1, AlertRule.set_last_triggered kr.2 now).
Proof.
  intros Hf. unfold step_rule.
  destruct (check_rule_fires _ _ _ Hf) as (event & -> & _). done.
Qed.

Lemma step_rule_id now pbs kr :
  AlertRule.id (step_rule now pbs kr).2 = AlertRule.id kr.2.
Proof.
  destruct (fires now pbs kr.2) eqn:Hf.
  - by rewrite step_rule_fires.
  - by rewrite step_rule_quiet.
Qed.

Lemma quiet_rule_stays self prices now k rule :
  rules_wf self ->
  (k, rule) ∈ _rules self ->
  fires now (price_index prices) rule = false ->
  (forall event, event ∈ (check_alerts self prices now).2 ->
                 AlertEvent.rule_id event <> AlertRule.id rule)
  /\ (forall i, _rules self !! i = Some (k, rule) ->
                _rules (check_alerts self prices now).1 !! i = Some (k, rule)).
Proof.
  intros Hwf Hin Hf. rewrite check_alerts_spec. simpl. split.
  - intros event Hev Heq.
    rewrite (event_of_rule_fires _ _ _ _ _ _ Hwf Hin Hev Heq) in Hf.
    discriminate.
  - intros i Hi. rewrite list_lookup_fmap, Hi. simpl.
    by rewrite step_rule_quiet.
Qed.

Lemma unknown_operator_condition rule price :
  ~ known_operator (AlertRule.operator rule) ->
  _condition_met rule price = false.
Proof.
  intros Hop. unfold _condition_met.
  repeat match goal with
  | |- context [String.eqb ?a ?b] =>
      destruct (String.eqb_spec a b) as [Heq|_];
      [exfalso; apply Hop; unfold known_operator; rewrite Heq; tauto|]
  end.
  reflexivity.
Qed.

(** ** Rules that stay silent *)

(** C5. A rule with [enabled = false] never fires, whatever the prices of
    the snapshot: [check_alerts] returns no event carrying the id of the
    rule, and the rule stays in its place in the table exactly as it was,
    its [last_triggered] included. *)
Theorem disabled_rule_never_fires self prices now k rule :
  rules_wf self ->
  (k, rule) ∈ _rules self ->
  AlertRule.enabled rule = false ->
  (forall event, event ∈ (check_alerts self prices now).2 ->
                 AlertEvent.rule_id event <> AlertRule.id rule)
  /\ (forall i, _rules self !! i = Some (k, rule) ->
                _rules (check_alerts self prices now).1 !! i = Some (k, rule)).
Proof.
  intros Hwf Hin Hen. apply quiet_rule_stays; [done..|].
  unfold fires. by rewrite Hen.
Qed.

(** C6. A rule whose operator is none of [>], [<], [>=], [<=], [==] has a
    condition that no price meets, and it never fires: [check_alerts]
    returns normally, with no event carrying the id of the rule and the
    rule left as it was. *)
Theorem unknown_operator_never_fires self prices now k rule :
  rules_wf self ->
  (k, rule) ∈ _rules self ->
  ~ known_operator (AlertRule.operator rule) ->
  (forall price, _condition_met rule price = false)
  /\ (forall event, event ∈ (check_alerts self prices now).2 ->
                    AlertEvent.rule_id event <> AlertRule.id rule)
  /\ (forall i, _rules self !! i = Some (k, rule) ->
                _rules (check_alerts self prices now).1 !! i = Some (k, rule)).
Proof.
  intros Hwf Hin Hop. split.
  - intros price. by apply unknown_operator_condition.
  - apply quiet_rule_stays; [done..|].
    unfold fires.
    destruct (price_index prices !! upper (AlertRule.symbol rule)) as [p|];
      [|by rewrite andb_false_r].
    by rewrite unknown_operator_condition, andb_false_r.
Qed.

Lemma step_rule_framed now pbs kr : rule_framed now pbs kr (step_rule now pbs kr).
Proof.
  unfold rule_framed. destruct (fires now pbs kr.2) eqn:Hf.
  - rewrite step_rule_fires by done. simpl. repeat split; done.
  - rewrite step_rule_quiet by done. repeat split; done.
Qed.

Lemma fired_events_of_rules now pbs (rules : list (Z * AlertRule.t)) :
  Forall2 (event_of_rule now pbs)
          (filter (fun kr => fires now pbs kr.2 = true) rules)
          (omap (step_event now pbs) rules).
Proof.
  induction rules as [|kr rest IH]; [constructor|].
  rewrite filter_cons. cbn [omap list_omap].
  change (list_omap _ _ (step_event now pbs) rest)
    with (omap (step_event now pbs) rest).
  unfold step_event at 1.
  destruct (fires now pbs kr.2) eqn:Hf.
  - destruct (check_rule_fires _ _ _ Hf) as (event & -> & _ & Hev).
    rewrite decide_True by done. simpl. by constructor.
  - rewrite (check_rule_quiet _ _ _ Hf), decide_False by congruence. done.
Qed.

(** C10. Frame of [check_alerts]. The table keeps its keys in their order
    and the next id; each rule keeps id, symbol, operator, threshold,
    description, enabled flag and cooldown; a rule that fires gets
    [last_triggered = now] and a rule that does not fire is unchanged. The
    returned events are those of the rules that fire, one each, in
    registration order, with the id and symbol of the rule, the price of
    the snapshot and the time [now]; the history afterwards is the history
    before followed by these events, cut at the front once it is longer
    than 50. With no rule registered the call returns no event and the
    engine is as it was. *)
Theorem check_alerts_frame self prices now :
  let pbs := price_index prices in
  let self' := (check_alerts self prices now).1 in
  let events := (check_alerts self prices now).2 in
  map fst (_rules self') = map fst (_rules self)
  /\ _next_id self' = _next_id self
  /\ Forall2 (rule_framed now pbs) (_rules self) (_rules self')
  /\ Forall2 (event_of_rule now pbs)
             (filter (fun kr => fires now pbs kr.2 = true) (_rules self))
             events
  /\ (exists dropped,
        _events self ++ events = dropped ++ _events self'
        /\ ((length (_events self ++ events) <= 50)%nat -> dropped = []))
  /\ (_rules self = [] -> check_alerts self prices now = (self, [])).
Proof.
  intros pbs self' events. subst self' events.
  rewrite check_alerts_spec. cbn [fst snd _rules _next_id _events].
  fold pbs. repeat split.
  - rewrite <- list_fmap_compose. by apply list_fmap_ext.
  - apply Forall2_fmap_r, Forall_Forall2_diag, Forall_forall.
    intros kr _. apply step_rule_framed.
  - apply fired_events_of_rules.
  - destruct (_rules self) as [|kr rest] eqn:Hr.
    + exists []. by rewrite app_nil_r.
    + set (all := _events self ++ omap (step_event now pbs) (kr :: rest)).
      exists (take (length all - 50) all). split.
      * unfold last_n. by rewrite take_drop.
      * intros Hle. by replace (length all - 50)%nat with 0%nat by lia.
  - intros Hr. rewrite Hr. simpl. destruct self; simpl in *. by subst.
Qed.

(** ** Cooldown *)

Lemma check_alerts_wf self prices now :
  rules_wf self -> rules_wf (check_alerts self prices now).1.
Proof.
  intros (Hnd & Hid & Hlt). rewrite check_alerts_spec.
  unfold rules_wf. cbn [fst _rules _next_id]. repeat split.
  - rewrite <- list_fmap_compose.
    by rewrite (list_fmap_ext (fst ∘ step_rule now (price_index prices)) fst
                  (_rules self) (fun _ _ _ => eq_refl)).
  - apply Forall_fmap. eapply Forall_impl; [exact Hid|].
    intros kr Hkr. unfold compose. rewrite step_rule_id. exact Hkr.
  - apply Forall_fmap. eapply Forall_impl; [exact Hlt|]. by intros kr Hkr.
Qed.

Lemma fired_rule_after self prices now k rule :
  (k, rule) ∈ _rules self ->
  fires now (price_index prices) rule = true ->
  (k, AlertRule.set_last_triggered rule now)
    ∈ _rules (check_alerts self prices now).1.
Proof.
  intros Hin Hf. rewrite check_alerts_spec. cbn [fst _rules].
  apply list_elem_of_fmap. exists (k, rule). split; [|done].
  by rewrite step_rule_fires.
Qed.

Lemma fires_can_trigger now pbs rule :
  fires now pbs rule = true -> _can_trigger rule now = true.
Proof.
  unfold fires. intros Hf. apply andb_prop in Hf as [_ Hf].
  destruct (pbs !! upper (AlertRule.symbol rule)); [|discriminate].
  by apply andb_prop in Hf as [_ Hf].
Qed.

(** ** Registering rules keeps the table well formed *)

Lemma dict_set_fresh {V} (d : list (Z * V)) k v :
  k ∉ map fst d -> dict_set d k v = d ++ [(k, v)].
Proof.
  induction d as [|[k' v'] d IH]; simpl; intros Hk; [done|].
  apply not_elem_of_cons in Hk as [Hne Hk].
  destruct (Z.eqb_spec k' k); [congruence|]. by rewrite IH.
Qed.

Lemma next_id_fresh self :
  rules_wf self -> _next_id self ∉ map fst (_rules self).
Proof.
  intros (_ & _ & Hlt) Hin.
  apply list_elem_of_fmap in Hin as (kr & Hk & Hin).
  rewrite Forall_forall in Hlt. specialize (Hlt _ Hin). lia.
Qed.

Lemma add_rule_rules self symbol operator threshold description enabled cooldown :
  rules_wf self ->
  let r := add_rule self symbol operator threshold description enabled cooldown in
  _rules r.1 = _rules self ++ [(_next_id self, r.2)]
  /\ _next_id r.1 = _next_id self + 1
  /\ _events r.1 = _events self.
Proof.
  intros Hwf. simpl. by rewrite dict_set_fresh by by apply next_id_fresh.
Qed.

Lemma add_rule_wf self symbol operator threshold description enabled cooldown :
  rules_wf self ->
  rules_wf (add_rule self symbol operator threshold description enabled cooldown).1.
Proof.
  intros Hwf.
  destruct (add_rule_rules self symbol operator threshold description enabled
              cooldown Hwf) as (Hr & Hn & _).
  pose proof (next_id_fresh _ Hwf) as Hfresh.
  destruct Hwf as (Hnd & Hid & Hlt).
  unfold rules_wf. rewrite Hr, Hn. repeat split.
  - rewrite fmap_app. simpl. apply NoDup_app. repeat split; [done| |].
    + intros x Hx Hx'. apply list_elem_of_singleton in Hx'. by subst.
    + apply NoDup_singleton.
  - apply Forall_app. split; [done|]. by repeat constructor.
  - apply Forall_app. split.
    + eapply Forall_impl; [exact Hlt|]. intros kr Hkr. simpl in *. lia.
    + repeat constructor. simpl. lia.
Qed.

Lemma run_call_wf st c : rules_wf st.1 -> rules_wf (run_call st c).1.
Proof.
  intros Hwf. destruct c; simpl.
  - by apply add_rule_wf.
  - pose proof (check_alerts_wf st.1 prices now Hwf) as Hwf'.
    by destruct (check_alerts st.1 prices now).
Qed.

Lemma run_from_snoc st calls c :
  run_from st (calls ++ [c]) = run_call (run_from st calls) c.
Proof. unfold run_from. by rewrite foldl_app. Qed.

Lemma run_from_wf st calls : rules_wf st.1 -> rules_wf (run_from st calls).1.
Proof.
  intros Hwf. induction calls as [|c calls IH] using rev_ind; [done|].
  rewrite run_from_snoc. by apply run_call_wf.
Qed.

Lemma fired_by_app rule events1 events2 :
  fired_by rule (events1 ++ events2)
  <-> fired_by rule events1 \/ fired_by rule events2.
Proof.
  unfold fired_by. split.
  - intros (e & He & Hid). apply elem_of_app in He as [He|He]; eauto.
  - intros [(e & He & Hid)|(e & He & Hid)]; exists e; rewrite elem_of_app; eauto.
Qed.

(** A rule that does not fire during a run is, at its end, the object it
    was at its start. *)
Lemma quiet_run_keeps self calls k rule :
  rules_wf self ->
  (k, rule) ∈ _rules self ->
  ~ fired_by rule (run_from (self, []) calls).2 ->
  (k, rule) ∈ _rules (run_from (self, []) calls).1.
Proof.
  intros Hwf Hin. induction calls as [|c calls IH] using rev_ind; [done|].
  rewrite run_from_snoc.
  pose proof (run_from_wf (self, []) calls Hwf) as Hwf'.
  destruct (run_from (self, []) calls) as [s log]. simpl in *.
  destruct c as [sym op th de en co|prices now]; simpl.
  - intros Hq. specialize (IH Hq).
    destruct (add_rule_rules s sym op th de en co Hwf') as (Hr & _).
    simpl in Hr. rewrite Hr. apply elem_of_app. by left.
  - pose proof (check_alerts_spec s prices now) as Hspec.
    destruct (check_alerts s prices now) as [s' events]. simpl.
    intros Hq. rewrite fired_by_app in Hq.
    assert (Hin' : (k, rule) ∈ _rules s) by tauto.
    injection Hspec as -> ->. simpl.
    destruct (fires now (price_index prices) rule) eqn:Hf.
    + exfalso. apply Hq. right.
      destruct (fires_has_event _ _ _ _ _ Hin' Hf) as (e & He & Hid & _).
      by exists e.
    + apply list_elem_of_fmap. exists (k, rule). split; [|done].
      by rewrite step_rule_quiet.
Qed.

(** C1, as the code has it. Cooldown of a rule, at an evaluation at time
    [now]. With [last_triggered] unset the cooldown test passes. Whether
    the rule fires is decided by the rule itself, no other rule taking
    part. The test is made on the float [total_seconds()]; for a rule
    whose cooldown is at most 2^34 seconds in size it is the test on the
    times themselves: when [last_triggered] is set the rule fires only if
    [now - last_triggered >= cooldown_seconds]. Hence, if such a rule
    fires at [now], does not fire during the calls [mid] that follow, and
    fires again in an evaluation at [now2], then
    [now2 - now >= cooldown_seconds]; and an evaluation at a [now2]
    strictly inside the window returns no event for the rule, whatever
    the prices. Times are in microseconds. *)
Theorem cooldown_between_fires self prices now k rule :
  rules_wf self ->
  (k, rule) ∈ _rules self ->
  let r1 := check_alerts self prices now in
  (AlertRule.last_triggered rule = None -> _can_trigger rule now = true)
  /\ (fired_by rule r1.2 <-> fires now (price_index prices) rule = true)
  /\ (exact_cooldown rule ->
      forall last,
        AlertRule.last_triggered rule = Some last ->
        fired_by rule r1.2 ->
        AlertRule.cooldown_seconds rule * 1000000 <= now - last)
  /\ (exact_cooldown rule ->
      forall mid prices2 now2,
        let s := run_from (r1.1, []) mid in
        fired_by rule r1.2 ->
        ~ fired_by rule s.2 ->
        (fired_by rule (check_alerts s.1 prices2 now2).2 ->
         AlertRule.cooldown_seconds rule * 1000000 <= now2 - now)
        /\ (now2 - now < AlertRule.cooldown_seconds rule * 1000000 ->
            ~ fired_by rule (check_alerts s.1 prices2 now2).2)).
Proof.
  intros Hwf Hin r1.
  assert (Hiff : forall s p t r,
             rules_wf s -> (k, r) ∈ _rules s ->
             fired_by r (check_alerts s p t).2 -> fires t (price_index p) r = true).
  { intros s p t r Hs Hr (event & Hev & Heq).
    rewrite check_alerts_spec in Hev.
    eapply event_of_rule_fires; eauto. }
  split; [|split; [|split]].
  - intros Hnone. unfold _can_trigger. by rewrite Hnone.
  - split.
    + by apply Hiff.
    + intros Hf. destruct (fires_has_event _ _ _ _ _ Hin Hf) as (e & He & Hid & _).
      exists e. subst r1. rewrite check_alerts_spec. by split.
  - intros Hcool last Hlast H1.
    apply Hiff, fires_can_trigger in H1; [|done..].
    unfold _can_trigger in H1. rewrite Hlast in H1.
    by apply total_seconds_ge_exact in H1.
  - intros Hcool mid prices2 now2 s H1 Hquiet.
    assert (Hnext : fired_by rule (check_alerts s.1 prices2 now2).2 ->
                    AlertRule.cooldown_seconds rule * 1000000 <= now2 - now).
    { intros H2.
      apply Hiff in H1; [|done..].
      pose proof (fired_rule_after _ _ _ _ _ Hin H1) as Hin1.
      pose proof (check_alerts_wf _ prices now Hwf) as Hwf1.
      fold r1 in Hin1, Hwf1.
      set (rule1 := AlertRule.set_last_triggered rule now) in *.
      change (fired_by rule) with (fired_by rule1) in Hquiet, H2.
      pose proof (quiet_run_keeps _ _ _ _ Hwf1 Hin1 Hquiet) as Hin2.
      apply Hiff in H2; [|by apply run_from_wf|done].
      apply fires_can_trigger in H2. unfold _can_trigger in H2.
      cbn [rule1 AlertRule.set_last_triggered AlertRule.last_triggered
           AlertRule.cooldown_seconds] in H2.
      by apply total_seconds_ge_exact in H2. }
    split; [done|]. intros Hlt H2. specialize (Hnext H2). lia.
Qed.

(** ** The bounded history *)

Lemma run_history calls :
  _events (run calls).1 = last_n 50 (run calls).2.
Proof.
  unfold run. induction calls as [|c calls IH] using rev_ind; [done|].
  rewrite run_from_snoc.
  destruct (run_from (AlertManager_init, []) calls) as [s log]. simpl in IH.
  destruct c as [sym op th de en co|prices now]; simpl; [done|].
  pose proof (check_alerts_spec s prices now) as Hspec.
  destruct (check_alerts s prices now) as [s' events].
  injection Hspec as -> ->. simpl.
  destruct (_rules s) as [|kr rest]; simpl.
  - by rewrite app_nil_r.
  - by rewrite IH, last_n_app.
Qed.

(** C2. After any series of calls on a new engine, [check_alerts] among
    them, the history holds at most 50 events; it is the tail of the
    series of all events ever appended, in the order of their appending,
    so oldest first; and once more than 50 events were appended it is
    exactly the last 50 of them. *)
Theorem history_bounded_fifo calls :
  let self := (run calls).1 in
  let appended := (run calls).2 in
  (length (_events self) <= 50)%nat
  /\ _events self `suffix_of` appended
  /\ ((length appended <= 50)%nat -> _events self = appended)
  /\ ((50 < length appended)%nat ->
      _events self = drop (length appended - 50) appended
      /\ length (_events self) = 50%nat).
Proof.
  intros self appended. subst self appended. rewrite run_history.
  repeat split.
  - apply last_n_length.
  - apply suffix_drop.
  - apply last_n_short.
  - unfold last_n. rewrite length_drop. lia.
Qed.

(** ** Rule ids *)

Lemma add_rules_from self args :
  rules_wf self ->
  (add_rules self args).2
  = imap (fun i a => rule_of_args (_next_id self + Z.of_nat i) a) args
  /\ _rules (add_rules self args).1
     = _rules self
       ++ map (fun rule => (AlertRule.id rule, rule)) (add_rules self args).2
  /\ _next_id (add_rules self args).1 = _next_id self + Z.of_nat (length args)
  /\ _events (add_rules self args).1 = _events self.
Proof.
  revert self. induction args as [|a args IH]; intros self Hwf.
  - simpl. rewrite app_nil_r. repeat split; lia.
  - cbn [add_rules]. unfold add_rule_args.
    pose proof (add_rule_wf self (arg_symbol a) (arg_operator a) (arg_threshold a)
                  (arg_description a) (arg_enabled a) (arg_cooldown_seconds a) Hwf)
      as Hwf1.
    destruct (add_rule_rules self (arg_symbol a) (arg_operator a) (arg_threshold a)
                (arg_description a) (arg_enabled a) (arg_cooldown_seconds a) Hwf)
      as (Hr & Hn & He).
    destruct (add_rule self (arg_symbol a) (arg_operator a) (arg_threshold a)
                (arg_description a) (arg_enabled a) (arg_cooldown_seconds a))
      as [self1 rule] eqn:Hadd.
    assert (Hrule : rule = rule_of_args (_next_id self) a).
    { unfold add_rule in Hadd. by injection Hadd as _ <-. }
    cbn [fst snd] in *.
    destruct (IH self1 Hwf1) as (IH2 & IHr & IHn & IHe).
    destruct (add_rules self1 args) as [self2 rules]. cbn [fst snd] in *.
    repeat split.
    + rewrite imap_cons, Hrule, IH2, Hn. f_equal.
      * f_equal. lia.
      * apply imap_ext. intros i x _. unfold compose. f_equal. lia.
    + rewrite IHr, Hr, <- app_assoc. simpl. by rewrite Hrule.
    + rewrite IHn, Hn. simpl length. lia.
    + by rewrite IHe.
Qed.

Lemma init_wf : rules_wf AlertManager_init.
Proof. repeat split; simpl; constructor. Qed.

(** C9. A series of [add_rule] calls on a new engine, whatever the
    arguments: each call returns a rule, and the [i]-th one (from 0) has
    id [i + 1], the other fields as given and [last_triggered] unset. Its
    symbol is [str.upper] of the symbol given, whatever the text; for an
    ASCII symbol that is the same number of characters, each letter from
    a to z replaced by its capital and every other character kept. The
    table holds the returned rules under their ids in the order of the
    calls; ids grow strictly along the series, so no two calls get the
    same id; and the next id is one more than the number of calls. *)
Theorem add_rule_ids_sequential args :
  let self := (add_rules AlertManager_init args).1 in
  let rules := (add_rules AlertManager_init args).2 in
  rules = imap (fun i a => rule_of_args (Z.of_nat i + 1) a) args
  /\ (forall i a r,
        args !! i = Some a -> rules !! i = Some r ->
        AlertRule.symbol r = upper (arg_symbol a)
        /\ (is_ascii (arg_symbol a) = true ->
            String.length (AlertRule.symbol r) = String.length (arg_symbol a)
            /\ forall k c,
                 String.get k (arg_symbol a) = Some c ->
                 String.get k (AlertRule.symbol r) = Some (uppercased_char c)))
  /\ _rules self = map (fun rule => (AlertRule.id rule, rule)) rules
  /\ _next_id self = Z.of_nat (length args) + 1
  /\ (forall i j ri rj,
        rules !! i = Some ri -> rules !! j = Some rj -> (i < j)%nat ->
        AlertRule.id ri < AlertRule.id rj)
  /\ NoDup (map AlertRule.id rules).
Proof.
  intros self rules. subst self rules.
  destruct (add_rules_from AlertManager_init args init_wf) as (Hr & Ht & Hn & _).
  simpl in Hr, Ht, Hn.
  assert (Hr' : (add_rules AlertManager_init args).2
                = imap (fun i a => rule_of_args (Z.of_nat i + 1) a) args).
  { rewrite Hr. apply imap_ext. intros i x _. f_equal. lia. }
  assert (Hids : forall i r, (add_rules AlertManager_init args).2 !! i = Some r ->
                             AlertRule.id r = Z.of_nat i + 1).
  { intros i r. rewrite Hr', list_lookup_imap.
    destruct (args !! i); simpl; [|done]. by intros [= <-]. }
  split; [done|]. split; [|repeat split; [done|lia| |] ].
  - intros i a r Ha. rewrite Hr', list_lookup_imap, Ha. simpl. intros [= <-].
    simpl. split; [done|]. intros Hascii. rewrite (upper_ascii_text _ Hascii).
    split; [apply ascii_upper_length|].
    intros k c Hc. by rewrite ascii_upper_get, Hc, <- upper_ascii_uppercased.
  - intros i j ri rj Hi Hj Hlt.
    rewrite (Hids _ _ Hi), (Hids _ _ Hj). lia.
  - apply NoDup_alt. intros i j x Hi Hj.
    rewrite list_lookup_fmap in Hi, Hj.
    destruct ((add_rules AlertManager_init args).2 !! i) as [ri|] eqn:Ei; [|done].
    destruct ((add_rules AlertManager_init args).2 !! j) as [rj|] eqn:Ej; [|done].
    simpl in Hi, Hj. apply Hids in Ei, Ej. simplify_eq. lia.
Qed.

End AlertEngine.

(* ===================================================================== *)
(** * The engine on concrete runs *)
(* ===================================================================== *)

Section EngineRuns.
#[local] Existing Instance sample_format.

Example builtins_on_samples :
  ascii_upper "aapl" = "AAPL"
  /\ ascii_upper "Brk.b" = "BRK.B"
  /\ is_ascii "Brk.b" = true
  /\ str_int 12 = "12"
  /\ str_int (-3) = "-3"
  /\ last_n 2 [1; 2; 3] = [2; 3]
  /\ last_n 5 [1; 2; 3] = [1; 2; 3]
  /\ dict_set [(1, "a"); (2, "b")] 1 "c" = [(1, "c"); (2, "b")]
  /\ dict_set [(1, "a"); (2, "b")] 3 "c" = [(1, "a"); (2, "b"); (3, "c")].
Proof. vm_compute. repeat split; reflexivity. Qed.

Example condition_on_samples :
  let rule op := AlertRule.mk 1 "AAPL" op 10%float "" true 60 None in
  _condition_met (rule ">") 10%float = false
  /\ _condition_met (rule ">=") 10%float = true
  /\ _condition_met (rule "<") 9.5%float = true
  /\ _condition_met (rule "<=") 10.5%float = false
  /\ _condition_met (rule "==") 10%float = true
  /\ _condition_met (rule ">=") nan = false
  /\ _condition_met (rule "=>") 11%float = false
  /\ _condition_met (rule "") 11%float = false.
Proof. vm_compute. repeat split; reflexivity. Qed.

Example floats_on_samples :
  float_of_int 20 = Some 20%float
  /\ float_of_int (2 ^ 1024) = None
  /\ float_compare_int 20.5%float 20 = Some Gt
  /\ float_compare_int 20%float 20 = Some Eq
  /\ float_compare_int (-0.25)%float 0 = Some Lt
  /\ float_compare_int nan 20 = None
  /\ float_gt_int infinity (2 ^ 2000) = true
  /\ float_gt_int nan 20 = false
  /\ float_le_int nan 20 = false.
Proof. vm_compute. repeat split; reflexivity. Qed.

Example total_seconds_on_samples :
  total_seconds 0 = 0%float
  /\ total_seconds 1500000 = 1.5%float
  /\ total_seconds (-1) = (-0x1.0c6f7a0b5ed8dp-20)%float
  /\ total_seconds 10000000 = 10%float
  /\ float_ge_int (total_seconds 10000000) 10 = true
  /\ float_ge_int (total_seconds 9999999) 10 = false
  /\ float_ge_int (total_seconds (-1)) 0 = false
  /\ float_ge_int (total_seconds 0) 0 = true.
Proof. vm_compute. repeat split; reflexivity. Qed.

Example message_on_sample :
  @alert_message sample_format aapl_rule 150%float
  = "Alert 1: AAPL > <float> (current: <.2f>)".
Proof. vm_compute. reflexivity. Qed.

Lemma sample_engine_rules :
  map fst (_rules sample_engine) = [1; 2; 3; 4; 5]
  /\ _rules sample_engine !! 0%nat = Some (1, aapl_rule)
  /\ _rules sample_engine !! 3%nat = Some (4, msft_off)
  /\ _rules sample_engine !! 4%nat = Some (5, msft_unknown).
Proof. repeat split; reflexivity. Qed.

Lemma sample_engine_wf : rules_wf sample_engine.
Proof.
  repeat split.
  - apply (bool_decide_unpack _). vm_compute. exact I.
  - repeat constructor.
  - repeat constructor.
Defined.

(** The scenario of the design document: the rule [AAPL > 0] with a
    cooldown of 10 s against AAPL at 150 fires at t = 0, stays silent at
    t = 5 s and fires again at t = 11 s. *)
Example scenario_cooldown :
  let prices := [quote "AAPL" 150%float] in
  let r0 := @check_alerts sample_format load_alert_rules prices 0 in
  let r5 := @check_alerts sample_format r0.1 prices 5000000 in
  let r11 := @check_alerts sample_format r5.1 prices 11000000 in
  map AlertEvent.rule_id r0.2 = [1]
  /\ r5.2 = []
  /\ map AlertEvent.rule_id r11.2 = [1]
  /\ map AlertEvent.triggered_at (_events r11.1) = [0; 11000000].
Proof. vm_compute. repeat split; reflexivity. Qed.

(** C1 as worded fails for a cooldown above 2^34 seconds. The rule fires
    at time 0 and fires again one microsecond before its cooldown has
    passed: the floats around that number of seconds are 3.8 microseconds
    apart and [total_seconds()] of the time passed is the cooldown itself.
    So it is at 2^34 + 1 seconds, the first cooldown beyond the bound, and
    at 2^35 seconds; at 2^34 seconds the second evaluation returns
    nothing. On the negative side, where the second evaluation has to lie
    before the first, the first cooldown to fail is -2^34 seconds. *)
Lemma fires_inside_cooldown_window :
  17179869184999999 < (2 ^ 34 + 1) * 1000000
  /\ total_seconds 17179869184999999 = 17179869185%float
  /\ fired_twice (2 ^ 34 + 1) 17179869184999999 = ([1], [1], [0; 17179869184999999])
  /\ 34359738367999999 < 2 ^ 35 * 1000000
  /\ total_seconds 34359738367999999 = 34359738368%float
  /\ fired_twice (2 ^ 35) 34359738367999999 = ([1], [1], [0; 34359738367999999])
  /\ fired_twice (2 ^ 34) 17179869183999999 = ([1], [], [0])
  /\ -17179869184000001 < - 2 ^ 34 * 1000000
  /\ fired_twice (- 2 ^ 34) (-17179869184000001) = ([1], [1], [0; -17179869184000001])
  /\ fired_twice (- 2 ^ 34 + 1) (-17179869183000001) = ([1], [], [0]).
Proof. vm_compute. repeat split; reflexivity. Qed.

Lemma cooldown_between_fires_witness :
  let self := sample_engine in
  let prices := [quote "AAPL" 150%float] in
  let now := 0 in
  let rule := aapl_rule in
  let r1 := @check_alerts sample_format self prices now in
  rules_wf self
  /\ (1, rule) ∈ _rules self
  /\ exact_cooldown rule
  /\ (AlertRule.last_triggered rule = None -> _can_trigger rule now = true)
  /\ (fired_by rule r1.2 <-> fires now (price_index prices) rule = true)
  /\ (forall last,
        AlertRule.last_triggered rule = Some last ->
        fired_by rule r1.2 ->
        AlertRule.cooldown_seconds rule * 1000000 <= now - last)
  /\ (forall mid prices2 now2,
        let s := @run_from sample_format (r1.1, []) mid in
        fired_by rule r1.2 ->
        ~ fired_by rule s.2 ->
        (fired_by rule (@check_alerts sample_format s.1 prices2 now2).2 ->
         AlertRule.cooldown_seconds rule * 1000000 <= now2 - now)
        /\ (now2 - now < AlertRule.cooldown_seconds rule * 1000000 ->
            ~ fired_by rule (@check_alerts sample_format s.1 prices2 now2).2)).
Proof.
  intros self prices now rule r1.
  assert (Hin : (1, rule) ∈ _rules self).
  { apply (list_elem_of_lookup_2 _ 0%nat). reflexivity. }
  assert (Hcool : exact_cooldown rule) by (unfold exact_cooldown; simpl; lia).
  split; [exact sample_engine_wf|]. split; [exact Hin|]. split; [exact Hcool|].
  destruct (@cooldown_between_fires sample_format self prices now 1 rule
              sample_engine_wf Hin) as (H1 & H2 & H3 & H4).
  split; [exact H1|]. split; [exact H2|].
  split; [exact (H3 Hcool)|exact (H4 Hcool)].
Defined.

Lemma disabled_rule_never_fires_witness :
  let self := sample_engine in
  let prices := [quote "MSFT" 300%float] in
  rules_wf self
  /\ (4, msft_off) ∈ _rules self
  /\ AlertRule.enabled msft_off = false
  /\ (forall event, event ∈ (@check_alerts sample_format self prices 0).2 ->
                    AlertEvent.rule_id event <> AlertRule.id msft_off)
  /\ (forall i, _rules self !! i = Some (4, msft_off) ->
                _rules (@check_alerts sample_format self prices 0).1 !! i
                = Some (4, msft_off)).
Proof.
  intros self prices.
  assert (Hin : (4, msft_off) ∈ _rules self).
  { apply (list_elem_of_lookup_2 _ 3%nat). reflexivity. }
  split; [exact sample_engine_wf|]. split; [exact Hin|]. split; [reflexivity|].
  exact (@disabled_rule_never_fires sample_format self prices 0 4 msft_off
           sample_engine_wf Hin eq_refl).
Defined.

Lemma msft_unknown_operator : ~ known_operator (AlertRule.operator msft_unknown).
Proof. unfold known_operator. simpl. intros [?|[?|[?|[?|?]]]]; discriminate. Defined.

Lemma unknown_operator_never_fires_witness :
  let self := sample_engine in
  let prices := [quote "MSFT" 300%float] in
  rules_wf self
  /\ (5, msft_unknown) ∈ _rules self
  /\ ~ known_operator (AlertRule.operator msft_unknown)
  /\ (forall price, _condition_met msft_unknown price = false)
  /\ (forall event, event ∈ (@check_alerts sample_format self prices 0).2 ->
                    AlertEvent.rule_id event <> AlertRule.id msft_unknown)
  /\ (forall i, _rules self !! i = Some (5, msft_unknown) ->
                _rules (@check_alerts sample_format self prices 0).1 !! i
                = Some (5, msft_unknown)).
Proof.
  intros self prices.
  assert (Hin : (5, msft_unknown) ∈ _rules self).
  { apply (list_elem_of_lookup_2 _ 4%nat). reflexivity. }
  split; [exact sample_engine_wf|]. split; [exact Hin|].
  split; [exact msft_unknown_operator|].
  exact (@unknown_operator_never_fires sample_format self prices 0 5 msft_unknown
           sample_engine_wf Hin msft_unknown_operator).
Defined.

End EngineRuns.

(* ===================================================================== *)
(** * Properties of the subscriber registry *)
(* ===================================================================== *)

Lemma filter_all {A} (P : A -> Prop) `{forall x, Decision (P x)} (l : list A) :
  Forall P l -> filter P l = l.
Proof.
  induction 1 as [|x l Hx Hl IH]; [done|].
  by rewrite filter_cons, decide_True, IH.
Qed.

Lemma py_remove_NoDup x l :
  NoDup l -> x ∈ l -> py_remove x l = Some (filter (fun y => y <> x) l).
Proof.
  induction l as [|y l IH]; intros Hnd Hin; [by apply elem_of_nil in Hin|].
  apply NoDup_cons in Hnd as [Hy Hnd]. simpl. rewrite filter_cons.
  destruct (decide (y = x)) as [->|Hne].
  - rewrite decide_False by (intros Hc; by apply Hc).
    rewrite filter_all; [done|].
    apply Forall_forall. intros z Hz ->. done.
  - apply elem_of_cons in Hin as [->|Hin]; [done|].
    rewrite decide_True by done. by rewrite IH.
Qed.

Lemma disconnect_NoDup self x :
  NoDup (active_connections self) ->
  active_connections (disconnect self x)
  = filter (fun y => y <> x) (active_connections self).
Proof.
  intros Hnd. unfold disconnect.
  destruct (decide (x ∈ active_connections self)) as [Hin|Hout].
  - by rewrite py_remove_NoDup.
  - rewrite filter_all; [done|].
    apply Forall_forall. intros z Hz ->. done.
Qed.

Lemma failed_cons a log :
  failed (a :: log) = if delivered a then failed log else attempt_to a :: failed log.
Proof.
  unfold failed. rewrite filter_cons.
  destruct (delivered a).
  - by rewrite decide_False.
  - by rewrite decide_True.
Qed.

(** The loop ends with the attempts logged and with the registry it
    started from, less the websockets whose send raised. *)
Lemma broadcast_loop_spec send_text message connections i self log :
  NoDup (active_connections self) ->
  broadcast_loop send_text message i connections self log
  = ({| active_connections :=
          filter (fun ws => ws ∉ failed (attempts send_text message i connections))
                 (active_connections self) |},
     log ++ attempts send_text message i connections).
Proof.
  revert i self log.
  induction connections as [|c rest IH]; intros i self log Hnd.
  - simpl. rewrite app_nil_r, filter_all; [by destruct self|].
    apply Forall_forall. intros z _. apply not_elem_of_nil.
  - cbn [broadcast_loop attempts]. rewrite failed_cons. unfold delivered.
    cbn [attempt_reply attempt_to].
    destruct (send_text i) as [[]|].
    + rewrite IH by done. by rewrite <- app_assoc.
    + rewrite IH.
      * rewrite disconnect_NoDup by done. rewrite <- app_assoc. simpl.
        f_equal. f_equal. rewrite list_filter_filter.
        apply list_filter_iff. intros ws. rewrite not_elem_of_cons. tauto.
      * rewrite disconnect_NoDup by done. by apply NoDup_filter.
Qed.

Lemma attempts_lookup send_text message connections i j :
  attempts send_text message i connections !! j
  = (fun ws => mk_attempt ws message (send_text (i + j)%nat)) <$> connections !! j.
Proof.
  revert i j. induction connections as [|c rest IH]; intros i [|j]; simpl; try done.
  - by rewrite Nat.add_0_r.
  - rewrite IH. by replace (S i + j)%nat with (i + S j)%nat by lia.
Qed.

Lemma elem_of_failed ws send_text message connections :
  ws ∈ failed (attempts send_text message 0 connections)
  <-> exists j, connections !! j = Some ws /\ send_text j = Raises.
Proof.
  unfold failed. rewrite list_elem_of_fmap. split.
  - intros (a & -> & Ha). apply list_elem_of_filter in Ha as [Hd Ha].
    apply list_elem_of_lookup in Ha as [j Hj].
    rewrite attempts_lookup in Hj. simpl in Hj.
    destruct (connections !! j) as [c|] eqn:Hc; [|done].
    simpl in Hj. injection Hj as <-. exists j. split; [done|].
    unfold delivered in Hd. simpl in Hd. by destruct (send_text j).
  - intros (j & Hj & Hr).
    exists (mk_attempt ws message (send_text j)). split; [done|].
    apply list_elem_of_filter. split.
    + unfold delivered. simpl. by rewrite Hr.
    + apply (list_elem_of_lookup_2 _ j). rewrite attempts_lookup, Hj. done.
Qed.

(** C4. [broadcast] on a registry without repetition, the [i]-th send of
    the call doing what [send_text i] says. Every subscriber registered when
    the call starts gets one delivery attempt, in the order of the
    registry, whatever happened to the ones before it. A subscriber whose
    send raises is out of the registry afterwards. A subscriber whose send
    returns has been sent the message and is still registered. Nobody else
    leaves and the order is kept. *)
Theorem broadcast_prunes_failures self message send_text :
  NoDup (active_connections self) ->
  let before := active_connections self in
  let after := active_connections (broadcast self message send_text).1 in
  let log := (broadcast self message send_text).2 in
  (forall i ws, before !! i = Some ws ->
                log !! i = Some (mk_attempt ws message (send_text i)))
  /\ length log = length before
  /\ (forall i ws, before !! i = Some ws -> send_text i = Raises -> ws ∉ after)
  /\ (forall i ws, before !! i = Some ws -> send_text i = Returns tt ->
                   ws ∈ after
                   /\ exists a, log !! i = Some a /\ attempt_to a = ws
                                /\ attempt_text a = message /\ delivered a = true)
  /\ after = filter (fun ws => ws ∉ failed log) before.
Proof.
  intros Hnd before after log. subst before after log. unfold broadcast.
  rewrite broadcast_loop_spec by done. cbn [fst snd active_connections app].
  assert (Hlog : forall i ws, active_connections self !! i = Some ws ->
            attempts send_text message 0 (active_connections self) !! i
            = Some (mk_attempt ws message (send_text i))).
  { intros i ws Hi. by rewrite attempts_lookup, Hi. }
  split; [exact Hlog|]. split; [|split; [|split]].
  - apply Nat.le_antisymm.
    + apply Nat.nlt_ge. intros Hlt.
      destruct (lookup_lt_is_Some_2 _ _ Hlt) as [a Ha].
      rewrite attempts_lookup, lookup_ge_None_2 in Ha by lia. done.
    + apply Nat.nlt_ge. intros Hlt.
      destruct (lookup_lt_is_Some_2 _ _ Hlt) as [ws Hws].
      apply Hlog in Hws. apply lookup_lt_Some in Hws. lia.
  - intros i ws Hi Hr Hin. apply list_elem_of_filter in Hin as [Hnf _].
    apply Hnf. apply elem_of_failed. eauto.
  - intros i ws Hi Hr. split.
    + apply list_elem_of_filter. split; [|by eapply list_elem_of_lookup_2].
      rewrite elem_of_failed. intros (j & Hj & Hrj).
      assert (i = j) by (eapply NoDup_lookup; eauto). subst j. congruence.
    + eexists. split; [by apply Hlog|]. unfold delivered. simpl. by rewrite Hr.
  - done.
Qed.

(* ===================================================================== *)
(** * Properties of the price cache *)
(* ===================================================================== *)

Section PriceCacheProps.
Context `{PyLib}.

Lemma parse_cached_spec raw max_age now :
  parse_cached raw max_age now
  = match payload_ts raw with
    | Some ts => if not_stale now ts max_age then payload_prices raw else None
    | None => None
    end.
Proof.
  unfold parse_cached, payload_ts, payload_prices, not_stale.
  destruct (json_loads raw) as [[| | | | | |blob]|]; try done.
  destruct (dict_get blob "ts") as [[]|]; try done;
    match goal with
    | |- context [py_float ?v] => destruct (py_float v) as [ts|]; [|done]
    end;
    by destruct (float_gt_int (PrimFloat.sub now ts) max_age).
Qed.

(** The two wordings of the freshness test part only on a NaN. *)
Lemma not_stale_within now ts max_age :
  not_stale now ts max_age = true
  <-> within_max_age now ts max_age = true
      \/ float_compare_int (PrimFloat.sub now ts) max_age = None.
Proof.
  unfold not_stale, within_max_age, float_gt_int, float_le_int.
  destruct (float_compare_int (PrimFloat.sub now ts) max_age) as [[]|];
    simpl; intuition congruence.
Qed.

Lemma load_prices_hit self max_age now get_reply prices :
  load_prices self max_age now get_reply = Some prices
  <-> hit_when not_stale self max_age now get_reply prices.
Proof.
  unfold load_prices, hit_when. split.
  - destruct (cached_raw self get_reply) as [raw|]; [|done].
    rewrite parse_cached_spec.
    destruct (payload_ts raw) as [ts|] eqn:Hts; [|done].
    destruct (not_stale now ts max_age) eqn:Hs; [|done].
    intros Hp. by exists raw, ts.
  - intros (raw & ts & -> & Hts & Hp & Hs).
    by rewrite parse_cached_spec, Hts, Hs.
Qed.

(** C3, as the code has it. [load_prices] returns the snapshot exactly when
    there is a cached text, the text parses to a payload with a [ts] that
    is there and converts to a float and with [data] that builds the
    prices, and the age [now - ts] is not above [max_age_seconds]; it
    returns [None] exactly when that fails, and no exception leaves the
    function. The boundary [now - ts = max_age_seconds] is a hit. The test
    is the documented [now - ts <= max_age_seconds] whenever the age is
    not a NaN; on a NaN the payload still passes. A cached text that
    [json.loads] rejects is a miss, and so is no cached text at all. *)
Theorem load_prices_hit_iff_not_stale self max_age now get_reply :
  (forall prices,
     load_prices self max_age now get_reply = Some prices
     <-> hit_when not_stale self max_age now get_reply prices)
  /\ (load_prices self max_age now get_reply = None
      <-> forall prices, ~ hit_when not_stale self max_age now get_reply prices)
  /\ (forall ts,
        float_compare_int (PrimFloat.sub now ts) max_age = Some Eq ->
        not_stale now ts max_age = true)
  /\ (forall ts,
        float_compare_int (PrimFloat.sub now ts) max_age <> None ->
        not_stale now ts max_age = within_max_age now ts max_age)
  /\ (forall raw,
        cached_raw self get_reply = Some raw ->
        json_loads raw = None ->
        load_prices self max_age now get_reply = None)
  /\ (cached_raw self get_reply = None ->
      load_prices self max_age now get_reply = None).
Proof.
  split; [|split; [|split; [|split; [|split]]]].
  - intros prices. apply load_prices_hit.
  - split.
    + intros Hnone prices Hhit. apply load_prices_hit in Hhit. congruence.
    + intros Hno. destruct (load_prices self max_age now get_reply) as [prices|] eqn:Hl;
        [|done].
      apply load_prices_hit in Hl. by apply Hno in Hl.
  - intros ts Heq. unfold not_stale, float_gt_int. by rewrite Heq.
  - intros ts Hc. unfold not_stale, within_max_age, float_gt_int, float_le_int.
    by destruct (float_compare_int (PrimFloat.sub now ts) max_age) as [[]|].
  - intros raw Hraw Hloads. unfold load_prices, parse_cached.
    by rewrite Hraw, Hloads.
  - intros Hraw. unfold load_prices. by rewrite Hraw.
Qed.

(** ** Round trip *)

Lemma cached_raw_reads_back self prices t0 set_reply get_reply :
  let raw := json_dumps (saved_blob prices t0) in
  bytes_decode (str_encode raw) = Some raw ->
  reads_back self raw get_reply ->
  cached_raw (save_prices self prices t0 set_reply).1 get_reply = Some raw.
Proof.
  intros raw Hutf Hback. unfold cached_raw, save_prices. fold raw.
  destruct (redis_client self) as [client|] eqn:Hc; simpl; [|done].
  destruct Hback as [Hnone | [-> | [-> | ->] ] ]; [congruence|done|done|].
  by rewrite Hutf.
Qed.

End PriceCacheProps.

(* ===================================================================== *)
(** * The cache and the registry on concrete runs *)
(* ===================================================================== *)

(** The scenario of the design document, with the boundary: a snapshot
    stored at t is returned by [load_prices 20] at t + 19 and at t + 20, and
    is a miss at t + 21. *)
Example scenario_cache :
  let cache := (@save_prices table_lib memory_cache new_prices 1000%float (Returns tt)).1 in
  @load_prices table_lib cache 20 1019%float Raises = Some new_prices
  /\ @load_prices table_lib cache 20 1020%float Raises = Some new_prices
  /\ @load_prices table_lib cache 20 1021%float Raises = None.
Proof. vm_compute. repeat split; reflexivity. Qed.

(** A text that is not JSON is a miss. *)
Example scenario_malformed :
  @load_prices table_lib redis_cache 20 1000%float (redis_holds "not json") = None.
Proof. vm_compute. reflexivity. Qed.

(** C3 as worded fails at a payload whose [ts] is NaN: Redis holds the text
    [nan_payload], [load_prices 20] at [time.time() = 100.0] returns the
    (empty) snapshot, and yet the hit condition with the test
    [now - ts <= 20] does not hold. *)
Lemma load_prices_nan_ts_is_hit :
  @load_prices table_lib redis_cache 20 100%float (redis_holds nan_payload)
  = Some []
  /\ ~ @hit_when table_lib within_max_age redis_cache 20 100%float
         (redis_holds nan_payload) []
  /\ ~ (@load_prices table_lib redis_cache 20 100%float (redis_holds nan_payload)
        = Some []
        <-> @hit_when table_lib within_max_age redis_cache 20 100%float
              (redis_holds nan_payload) []).
Proof.
  assert (Hhit : @load_prices table_lib redis_cache 20 100%float
                   (redis_holds nan_payload) = Some [])
    by (vm_compute; reflexivity).
  assert (Hno : ~ @hit_when table_lib within_max_age redis_cache 20 100%float
                    (redis_holds nan_payload) []).
  { intros (raw & ts & Hraw & Hts & _ & Hin).
    vm_compute in Hraw. injection Hraw as <-.
    vm_compute in Hts. injection Hts as <-.
    vm_compute in Hin. discriminate. }
  split; [exact Hhit|]. split; [exact Hno|].
  intros [Hto _]. exact (Hno (Hto Hhit)).
Qed.


Example scenario_broadcast :
  let r := broadcast three_subscribers "tick" second_raises in
  active_connections r.1 = [1%positive; 3%positive]
  /\ map attempt_to (filter (fun a => delivered a = true) r.2)
     = [1%positive; 3%positive].
Proof. vm_compute. split; reflexivity. Qed.

Lemma three_subscribers_NoDup : NoDup (active_connections three_subscribers).
Proof. apply (bool_decide_unpack _). vm_compute. exact I. Defined.

Lemma broadcast_prunes_failures_witness :
  let self := three_subscribers in
  let message := "tick" in
  let send_text := second_raises in
  let before := active_connections self in
  let after := active_connections (broadcast self message send_text).1 in
  let log := (broadcast self message send_text).2 in
  NoDup before
  /\ (forall i ws, before !! i = Some ws ->
                   log !! i = Some (mk_attempt ws message (send_text i)))
  /\ length log = length before
  /\ (forall i ws, before !! i = Some ws -> send_text i = Raises -> ws ∉ after)
  /\ (forall i ws, before !! i = Some ws -> send_text i = Returns tt ->
                   ws ∈ after
                   /\ exists a, log !! i = Some a /\ attempt_to a = ws
                                /\ attempt_text a = message /\ delivered a = true)
  /\ after = filter (fun ws => ws ∉ failed log) before.
Proof.
  intros self message send_text before after log.
  split; [exact three_subscribers_NoDup|].
  exact (broadcast_prunes_failures self message send_text three_subscribers_NoDup).
Defined.

(* ===================================================================== *)
(** * What [list_rules] and [recent_events] hand out *)
(* ===================================================================== *)

Module ObjectsProps.

Lemma alloc_fresh (h : Objects.store) o : h !! (Objects.alloc h o).2 = None.
Proof. unfold Objects.alloc. simpl. apply not_elem_of_dom, is_fresh. Qed.

Lemma deref_rule_insert (h : Objects.store) l o kl x :
  h !! l = None -> Objects.deref_rule h kl = Some x -> Objects.deref_rule (<[l := o]> h) kl = Some x.
Proof.
  unfold Objects.deref_rule. intros Hl Hx.
  destruct (decide (l = kl.2)) as [->|Hne]; [by rewrite Hl in Hx|].
  by rewrite lookup_insert_ne.
Qed.

Lemma deref_event_insert (h : Objects.store) l o e x :
  h !! l = None -> Objects.deref_event h e = Some x -> Objects.deref_event (<[l := o]> h) e = Some x.
Proof.
  unfold Objects.deref_event. intros Hl Hx.
  destruct (decide (l = e)) as [->|Hne]; [by rewrite Hl in Hx|].
  by rewrite lookup_insert_ne.
Qed.

(** Writing at a reference the store does not hold yet leaves the engine as
    it is. *)
Lemma state_of_insert_fresh (h : Objects.store) self st l o :
  Objects.state_of h self = Some st ->
  h !! l = None ->
  Objects.state_of (<[l := o]> h) self = Some st.
Proof.
  unfold Objects.state_of. intros Hst Hl.
  destruct (h !! Objects.rules_ref self) as [[| | |d]|] eqn:Hd; try done.
  destruct (h !! Objects.events_ref self) as [[| |es|]|] eqn:He; try done.
  rewrite !lookup_insert_ne by congruence. rewrite Hd, He.
  destruct (mapM (Objects.deref_rule h) d) as [rules|] eqn:Hrules; [|done].
  destruct (mapM (Objects.deref_event h) es) as [events|] eqn:Hevents; [|done].
  simpl in Hst.
  assert (Hr : mapM (Objects.deref_rule (<[l := o]> h)) d = Some rules).
  { apply mapM_Some. apply mapM_Some in Hrules.
    eapply Forall2_impl; [exact Hrules|]. intros kl x. by apply deref_rule_insert. }
  assert (Hv : mapM (Objects.deref_event (<[l := o]> h)) es = Some events).
  { apply mapM_Some. apply mapM_Some in Hevents.
    eapply Forall2_impl; [exact Hevents|]. intros e x. by apply deref_event_insert. }
  by rewrite Hr, Hv.
Qed.

Lemma list_mutate_alloc (h : Objects.store) items items' :
  Objects.list_mutate (Objects.alloc h (Objects.ListObj items)).1 (Objects.alloc h (Objects.ListObj items)).2 items'
  = <[(Objects.alloc h (Objects.ListObj items)).2 := Objects.ListObj items']> h.
Proof.
  unfold Objects.list_mutate, Objects.alloc. simpl.
  by rewrite lookup_insert_eq, insert_insert_eq.
Qed.

Lemma rules_of_state (h : Objects.store) d rules :
  mapM (Objects.deref_rule h) d = Some rules ->
  mapM (Objects.rule_at h) (dict_values d) = Some (dict_values rules).
Proof.
  intros Hm. apply mapM_Some. apply mapM_Some in Hm.
  unfold dict_values. apply Forall2_fmap.
  eapply Forall2_impl; [exact Hm|].
  intros [k l] [k' r]. unfold Objects.deref_rule, Objects.rule_at. simpl.
  destruct (h !! l) as [[]|]; try done. by intros [= _ ->].
Qed.

Lemma rule_at_insert (h : Objects.store) l o e x :
  h !! l = None -> Objects.rule_at h e = Some x -> Objects.rule_at (<[l := o]> h) e = Some x.
Proof.
  unfold Objects.rule_at. intros Hl Hx.
  destruct (decide (l = e)) as [->|Hne]; [by rewrite Hl in Hx|].
  by rewrite lookup_insert_ne.
Qed.

(** Writing a dict at the reference of the rule table leaves the rule and
    event objects readable as before. *)
Lemma deref_rule_insert_dict (h : Objects.store) l d' kl x :
  Objects.deref_rule h kl = Some x ->
  (exists d, h !! l = Some (Objects.DictObj d)) ->
  Objects.deref_rule (<[l := Objects.DictObj d']> h) kl = Some x.
Proof.
  unfold Objects.deref_rule. intros Hx [d Hd].
  destruct (decide (l = kl.2)) as [->|Hne]; [by rewrite Hd in Hx|].
  by rewrite lookup_insert_ne.
Qed.

Lemma deref_event_insert_dict (h : Objects.store) l d' e x :
  Objects.deref_event h e = Some x ->
  (exists d, h !! l = Some (Objects.DictObj d)) ->
  Objects.deref_event (<[l := Objects.DictObj d']> h) e = Some x.
Proof.
  unfold Objects.deref_event. intros Hx [d Hd].
  destruct (decide (l = e)) as [->|Hne]; [by rewrite Hd in Hx|].
  by rewrite lookup_insert_ne.
Qed.

Lemma mapM_deref_dict_set (h : Objects.store) d rules k l rule :
  Forall2 (fun kl x => Objects.deref_rule h kl = Some x) d rules ->
  Objects.deref_rule h (k, l) = Some (k, rule) ->
  Forall2 (fun kl x => Objects.deref_rule h kl = Some x)
          (dict_set d k l) (dict_set rules k rule).
Proof.
  intros Hd Hl. induction Hd as [|[k1 l1] [k2 r2] d rules Hx Hd IH]; simpl.
  - by repeat constructor.
  - assert (k2 = k1) as ->.
    { unfold Objects.deref_rule in Hx. simpl in Hx.
      destruct (h !! l1) as [[]|]; try done. by injection Hx as ->. }
    destruct (Z.eqb_spec k1 k).
    + subst. by constructor.
    + by constructor.
Qed.

(** [add_rule] on the objects is [add_rule] on the values. *)
Lemma add_rule_refines `{PyFormat} (h : Objects.store) self st
    symbol operator threshold description enabled cooldown :
  Objects.state_of h self = Some st ->
  exists h' self' r,
    Objects.add_rule h self symbol operator threshold description enabled cooldown
    = Some (h', self', r)
    /\ h !! r = None
    /\ Objects.rule_at h' r
       = Some (add_rule st symbol operator threshold description enabled cooldown).2
    /\ Objects.state_of h' self'
       = Some (add_rule st symbol operator threshold description enabled cooldown).1.
Proof.
  intros Hst. unfold Objects.state_of in Hst.
  destruct (h !! Objects.rules_ref self) as [[| | |d]|] eqn:Hd; try done.
  destruct (h !! Objects.events_ref self) as [[| |es|]|] eqn:He; try done.
  destruct (mapM (Objects.deref_rule h) d) as [rules|] eqn:Hrules; [|done].
  destruct (mapM (Objects.deref_event h) es) as [events|] eqn:Hevents; [|done].
  simpl in Hst. injection Hst as <-.
  unfold Objects.add_rule. rewrite Hd.
  set (rule := AlertRule.mk (Objects.next_id self) (upper symbol) operator
                 threshold description enabled cooldown None).
  pose proof (alloc_fresh h (Objects.RuleObj rule)) as Hfresh.
  unfold Objects.alloc in *. simpl in Hfresh. set (r := fresh (dom h)) in *.
  eexists _, _, r. split; [reflexivity|]. split; [done|].
  assert (Hne : Objects.rules_ref self <> r) by congruence.
  assert (Hne' : Objects.events_ref self <> r) by congruence.
  assert (Hne'' : Objects.rules_ref self <> Objects.events_ref self) by congruence.
  split.
  - unfold Objects.rule_at.
    rewrite lookup_insert_ne, lookup_insert_eq by done. done.
  - unfold Objects.state_of. cbn [Objects.rules_ref Objects.events_ref Objects.next_id].
    rewrite lookup_insert_eq, lookup_insert_ne, lookup_insert_ne, He by done.
    assert (Hdict : exists d0, (<[r := Objects.RuleObj rule]> h) !! Objects.rules_ref self
                               = Some (Objects.DictObj d0)).
    { exists d. by rewrite lookup_insert_ne. }
    assert (Hr : mapM (Objects.deref_rule
                         (<[Objects.rules_ref self :=
                              Objects.DictObj (dict_set d (Objects.next_id self) r)]>
                            (<[r := Objects.RuleObj rule]> h)))
                      (dict_set d (Objects.next_id self) r)
                 = Some (dict_set rules (Objects.next_id self) rule)).
    { apply mapM_Some. apply mapM_Some in Hrules.
      eapply Forall2_impl.
      - apply mapM_deref_dict_set.
        + eapply Forall2_impl; [exact Hrules|].
          intros kl x Hx. apply (deref_rule_insert _ r (Objects.RuleObj rule)) in Hx;
            [exact Hx|done].
        + unfold Objects.deref_rule. simpl. by rewrite lookup_insert_eq.
      - intros kl x Hx. by apply deref_rule_insert_dict. }
    assert (Hv : mapM (Objects.deref_event
                         (<[Objects.rules_ref self :=
                              Objects.DictObj (dict_set d (Objects.next_id self) r)]>
                            (<[r := Objects.RuleObj rule]> h))) es
                 = Some events).
    { apply mapM_Some. apply mapM_Some in Hevents.
      eapply Forall2_impl; [exact Hevents|].
      intros e x Hx. apply deref_event_insert_dict; [|done].
      by apply deref_event_insert. }
    rewrite Hr, Hv. done.
Qed.

(** C8, as the code has it. On a store [h] in which the engine [self] is
    the state [st]: [list_rules] and [recent_events] leave the engine as it
    is and return a list object that did not exist before; whatever the
    caller then puts in that list, the engine stays [st]. The items of the
    list are the very references the engine holds, to its rule objects in
    registration order and to its event objects, the whole history, oldest
    first. *)
Theorem copies_are_new_lists_of_shared_objects (h : Objects.store) self st :
  Objects.state_of h self = Some st ->
  (exists h' l d,
      Objects.list_rules h self = Some (h', l)
      /\ h !! l = None
      /\ h !! Objects.rules_ref self = Some (Objects.DictObj d)
      /\ h' !! l = Some (Objects.ListObj (dict_values d))
      /\ mapM (Objects.rule_at h') (dict_values d) = Some (list_rules st)
      /\ Objects.state_of h' self = Some st
      /\ forall items, Objects.state_of (Objects.list_mutate h' l items) self = Some st)
  /\ (exists h' l es,
        Objects.recent_events h self = Some (h', l)
        /\ h !! l = None
        /\ h !! Objects.events_ref self = Some (Objects.ListObj es)
        /\ h' !! l = Some (Objects.ListObj es)
        /\ mapM (Objects.deref_event h') es = Some (recent_events st)
        /\ Objects.state_of h' self = Some st
        /\ forall items, Objects.state_of (Objects.list_mutate h' l items) self = Some st).
Proof.
  intros Hst. pose proof Hst as Hst0. unfold Objects.state_of in Hst0.
  destruct (h !! Objects.rules_ref self) as [[| | |d]|] eqn:Hd; try done.
  destruct (h !! Objects.events_ref self) as [[| |es|]|] eqn:He; try done.
  destruct (mapM (Objects.deref_rule h) d) as [rules|] eqn:Hrules; [|done].
  destruct (mapM (Objects.deref_event h) es) as [events|] eqn:Hevents; [|done].
  simpl in Hst0. injection Hst0 as <-.
  split.
  - pose proof (alloc_fresh h (Objects.ListObj (dict_values d))) as Hfresh.
    exists (Objects.alloc h (Objects.ListObj (dict_values d))).1,
           (Objects.alloc h (Objects.ListObj (dict_values d))).2, d.
    unfold Objects.list_rules. rewrite Hd.
    repeat split; try done.
    + unfold Objects.alloc. simpl. apply lookup_insert_eq.
    + unfold Objects.alloc. simpl. unfold list_rules. simpl.
      apply rules_of_state in Hrules.
      apply mapM_Some. apply mapM_Some in Hrules.
      eapply Forall2_impl; [exact Hrules|]. intros e x. by apply rule_at_insert.
    + unfold Objects.alloc. simpl. by apply state_of_insert_fresh.
    + intros items. rewrite list_mutate_alloc. by apply state_of_insert_fresh.
  - pose proof (alloc_fresh h (Objects.ListObj es)) as Hfresh.
    exists (Objects.alloc h (Objects.ListObj es)).1, (Objects.alloc h (Objects.ListObj es)).2, es.
    unfold Objects.recent_events. rewrite He.
    repeat split; try done.
    + unfold Objects.alloc. simpl. apply lookup_insert_eq.
    + unfold Objects.alloc. simpl. unfold recent_events. simpl.
      apply mapM_Some. apply mapM_Some in Hevents.
      eapply Forall2_impl; [exact Hevents|]. intros e x. by apply deref_event_insert.
    + unfold Objects.alloc. simpl. by apply state_of_insert_fresh.
    + intros items. rewrite list_mutate_alloc. by apply state_of_insert_fresh.
Qed.

End ObjectsProps.

(** C8 as worded fails on the items of the list: the one item [list_rules]
    returns is the rule object the engine holds (and [add_rule] returned),
    and after the caller's [rule.enabled = False] on it the engine's own
    rule is disabled. *)
Lemma list_rules_items_are_shared :
  match demo_objects with
  | Some (h, self, rule) =>
      match Objects.list_rules h self with
      | Some (h', l) =>
          h' !! l = Some (Objects.ListObj [rule])
          /\ list_rules <$> Objects.state_of h' self = Some [aapl_rule]
          /\ list_rules <$> Objects.state_of (Objects.set_enabled h' rule false) self
             = Some [aapl_disabled]
          /\ Objects.state_of (Objects.set_enabled h' rule false) self
             <> Objects.state_of h' self
      | None => False
      end
  | None => False
  end.
Proof.
  vm_compute. repeat split; try reflexivity. intros Heq. discriminate Heq.
Qed.

Lemma demo_state_of : Objects.state_of demo_store demo_manager = Some demo_state.
Proof. vm_compute. reflexivity. Defined.

Lemma copies_are_new_lists_of_shared_objects_witness :
  Objects.state_of demo_store demo_manager = Some demo_state
  /\ (exists h' l d,
        Objects.list_rules demo_store demo_manager = Some (h', l)
        /\ demo_store !! l = None
        /\ demo_store !! Objects.rules_ref demo_manager = Some (Objects.DictObj d)
        /\ h' !! l = Some (Objects.ListObj (dict_values d))
        /\ mapM (Objects.rule_at h') (dict_values d) = Some (list_rules demo_state)
        /\ Objects.state_of h' demo_manager = Some demo_state
        /\ forall items,
             Objects.state_of (Objects.list_mutate h' l items) demo_manager
             = Some demo_state)
  /\ (exists h' l es,
        Objects.recent_events demo_store demo_manager = Some (h', l)
        /\ demo_store !! l = None
        /\ demo_store !! Objects.events_ref demo_manager = Some (Objects.ListObj es)
        /\ h' !! l = Some (Objects.ListObj es)
        /\ mapM (Objects.deref_event h') es = Some (recent_events demo_state)
        /\ Objects.state_of h' demo_manager = Some demo_state
        /\ forall items,
             Objects.state_of (Objects.list_mutate h' l items) demo_manager
             = Some demo_state).
Proof.
  split; [exact demo_state_of|].
  exact (ObjectsProps.copies_are_new_lists_of_shared_objects
           demo_store demo_manager demo_state demo_state_of).
Defined.

(* ===================================================================== *)
(** * More on the alert engine *)
(* ===================================================================== *)

Section AlertEngineMore.
Context `{PyFormat}.

(** X1. Whatever series of [add_rule] and [check_alerts] calls a new engine
    goes through, its rule table stays well formed: every rule sits under
    its own id, no id occurs twice, and every id is below the next one to
    hand out. *)
Theorem reachable_engine_well_formed calls : rules_wf (run calls).1.
Proof. unfold run. apply run_from_wf. simpl. apply init_wf. Qed.

(** X2. On a well-formed engine [add_rule] only adds: the table afterwards
    is the table before with the new rule at its end, under the id that was
    next and that no rule had; the rules already there keep their places
    and the event history is untouched; the table is well formed again. *)
Theorem add_rule_appends self symbol operator threshold description
    enabled cooldown_seconds :
  rules_wf self ->
  let r := add_rule self symbol operator threshold description enabled
                    cooldown_seconds in
  list_rules r.1 = list_rules self ++ [r.2]
  /\ map fst (_rules r.1) = map fst (_rules self) ++ [_next_id self]
  /\ AlertRule.id r.2 = _next_id self
  /\ (_next_id self ∉ map fst (_rules self))
  /\ _events r.1 = _events self
  /\ rules_wf r.1.
Proof.
  intros Hwf r.
  destruct (add_rule_rules self symbol operator threshold description enabled
              cooldown_seconds Hwf) as (Hr & _ & He).
  fold r in Hr, He. unfold list_rules, dict_values. rewrite Hr, !map_app.
  split; [done|]. split; [done|]. split; [done|].
  split; [by apply next_id_fresh|]. split; [done|].
  by apply add_rule_wf.
Qed.

(** ** The cooldown test *)

(** X19. For a rule whose cooldown is at most 2^34 seconds in size and
    whose [last_triggered] is set, [_can_trigger] is the test on the times
    themselves, both ways: it passes exactly when the microseconds from
    [last_triggered] to [now] are at least the cooldown. The rounding of
    [total_seconds()] to a float changes nothing there. *)
Theorem can_trigger_exact rule now last :
  exact_cooldown rule ->
  AlertRule.last_triggered rule = Some last ->
  _can_trigger rule now = true
  <-> AlertRule.cooldown_seconds rule * 1000000 <= now - last.
Proof.
  intros Hcool Hlast. unfold _can_trigger. rewrite Hlast.
  by apply total_seconds_ge_exact.
Qed.

(** ** The price index *)

Lemma price_index_snoc prices p :
  price_index (prices ++ [p])
  = <[upper (StockPrice.symbol p) := p]> (price_index prices).
Proof. unfold price_index. by rewrite foldl_app. Qed.

Lemma price_index_lookup prices k :
  price_index prices !! k
  = last (filter (fun p => upper (StockPrice.symbol p) = k) prices).
Proof.
  induction prices as [|p prices IH] using rev_ind; [done|].
  rewrite price_index_snoc, filter_app, filter_cons, filter_nil.
  destruct (decide (upper (StockPrice.symbol p) = k)) as [<-|Hne].
  - by rewrite lookup_insert_eq, last_snoc.
  - by rewrite lookup_insert_ne, app_nil_r.
Qed.

Lemma price_index_none prices k :
  price_index prices !! k = None
  <-> forall p, p ∈ prices -> upper (StockPrice.symbol p) <> k.
Proof.
  rewrite price_index_lookup, last_None. split.
  - intros Hnil p Hp Heq.
    assert (Hin : p ∈ filter (fun p => upper (StockPrice.symbol p) = k) prices)
      by (by apply list_elem_of_filter).
    rewrite Hnil in Hin. by apply elem_of_nil in Hin.
  - intros Hno.
    destruct (filter _ prices) as [|p l] eqn:Hf; [done|].
    assert (Hin : p ∈ filter (fun p => upper (StockPrice.symbol p) = k) prices)
      by (rewrite Hf; apply list_elem_of_here).
    apply list_elem_of_filter in Hin as [Heq Hin]. by apply Hno in Hin.
Qed.

(** X3. The price a rule is checked against is the last price of the
    snapshot whose symbol, in upper case, is the symbol of the rule in upper
    case; there is none exactly when no price of the snapshot has that
    symbol. Upper case is [str.upper] of the interpreter throughout, on
    any text. For a rule registered by [add_rule] under an ASCII symbol
    the case of the symbol given at registration plays no part. *)
Theorem price_lookup_last_wins prices :
  (forall rule,
     price_index prices !! upper (AlertRule.symbol rule)
     = last (filter (fun p => upper (StockPrice.symbol p)
                              = upper (AlertRule.symbol rule)) prices))
  /\ (forall rule,
        price_index prices !! upper (AlertRule.symbol rule) = None
        <-> forall p, p ∈ prices ->
                      upper (StockPrice.symbol p) <> upper (AlertRule.symbol rule))
  /\ (forall i a,
        is_ascii (arg_symbol a) = true ->
        price_index prices !! upper (AlertRule.symbol (rule_of_args i a))
        = last (filter (fun p => upper (StockPrice.symbol p)
                                 = upper (arg_symbol a)) prices)).
Proof.
  split; [|split].
  - intros rule. apply price_index_lookup.
  - intros rule. apply price_index_none.
  - intros i a Hascii. rewrite price_index_lookup. simpl.
    by rewrite upper_upper_ascii_text.
Qed.

(** ** Evaluations in which nothing fires, and what an evaluation returns *)

Lemma map_step_rule_quiet now pbs (rules : list (Z * AlertRule.t)) :
  Forall (fun kr => fires now pbs kr.2 = false) rules ->
  map (step_rule now pbs) rules = rules
  /\ omap (step_event now pbs) rules = [].
Proof.
  induction 1 as [|kr rules Hf _ [IH1 IH2]]; [done|].
  cbn [map omap list_omap]. rewrite step_rule_quiet by done.
  unfold step_event at 1. rewrite (check_rule_quiet _ _ _ Hf). simpl.
  split; [by rewrite IH1|exact IH2].
Qed.

(** X4. When no price of the snapshot carries the symbol of a rule of the
    table, [str.upper] of the one against [str.upper] of the other, an
    empty snapshot for one, [check_alerts] returns no event and leaves every
    rule as it was, the next id too. *)
Theorem no_matching_symbol_fires_nothing self prices now :
  Forall (fun kr => forall p, p ∈ prices ->
                      upper (StockPrice.symbol p) <> upper (AlertRule.symbol kr.2))
         (_rules self) ->
  (check_alerts self prices now).2 = []
  /\ _rules (check_alerts self prices now).1 = _rules self
  /\ _next_id (check_alerts self prices now).1 = _next_id self.
Proof.
  intros Hno. rewrite check_alerts_spec. cbn [fst snd _rules _next_id].
  destruct (map_step_rule_quiet now (price_index prices) (_rules self)) as [H1 H2].
  - eapply Forall_impl; [exact Hno|]. intros kr Hkr. simpl in Hkr.
    apply price_index_none in Hkr.
    unfold fires. rewrite Hkr. apply andb_false_r.
  - by rewrite H1, H2.
Qed.

(** X5. The time stamp of a rule whose cooldown is not negative never goes
    back: passing from a rule before [check_alerts] to the same rule after
    it, a set [last_triggered] stays set, to an instant that is not
    earlier. *)
Theorem last_triggered_never_goes_back self prices now :
  Forall2 (fun kr kr' =>
             0 <= AlertRule.cooldown_seconds kr.2 ->
             forall t, AlertRule.last_triggered kr.2 = Some t ->
                       exists t', AlertRule.last_triggered kr'.2 = Some t' /\ t <= t')
          (_rules self) (_rules (check_alerts self prices now).1).
Proof.
  rewrite check_alerts_spec. cbn [fst _rules].
  apply Forall2_fmap_r, Forall_Forall2_diag, Forall_forall.
  intros kr _ Hcool t Ht.
  destruct (fires now (price_index prices) kr.2) eqn:Hf.
  - rewrite step_rule_fires by done. exists now. split; [done|].
    apply fires_can_trigger in Hf. unfold _can_trigger in Hf.
    rewrite Ht in Hf. destruct (Z.le_gt_cases t now) as [|Hlt]; [done|].
    rewrite total_seconds_negative in Hf by lia. discriminate.
  - rewrite step_rule_quiet by done. exists t. split; [done|lia].
Qed.

Lemma fired_ids_sublist now pbs (rules : list (Z * AlertRule.t)) :
  map AlertEvent.rule_id (omap (step_event now pbs) rules)
  `sublist_of` map (fun kr => AlertRule.id kr.2) rules.
Proof.
  induction rules as [|kr rules IH]; [done|].
  cbn [map omap list_omap].
  change (list_omap _ _ (step_event now pbs) rules)
    with (omap (step_event now pbs) rules).
  unfold step_event at 1.
  destruct (check_rule now pbs kr.2) as [rule' [event|]] eqn:Hc; simpl.
  - apply check_rule_event_id in Hc as (_ & _ & ->). by apply sublist_skip.
  - by apply sublist_cons.
Qed.

(** X6. One evaluation returns at most one event per rule: the rule ids of
    the returned events, in the order returned, are picked from the ids of
    the table in registration order without repetition of a position, and
    every returned event is stamped with the time of the evaluation. *)
Theorem events_follow_registration_order self prices now :
  map AlertEvent.rule_id (check_alerts self prices now).2
  `sublist_of` map AlertRule.id (list_rules self)
  /\ (length (check_alerts self prices now).2 <= length (_rules self))%nat
  /\ Forall (fun event => AlertEvent.triggered_at event = now)
            (check_alerts self prices now).2.
Proof.
  rewrite check_alerts_spec. cbn [snd].
  pose proof (fired_ids_sublist now (price_index prices) (_rules self)) as Hsub.
  unfold list_rules, dict_values. rewrite <- list_fmap_compose.
  split; [exact Hsub|]. split.
  - apply sublist_length in Hsub. by rewrite !length_fmap in Hsub.
  - apply Forall_forall. intros event Hev.
    apply list_elem_of_omap in Hev as (kr & _ & Hstep).
    unfold step_event in Hstep.
    destruct (check_rule now (price_index prices) kr.2) as [rule' o] eqn:Hc.
    simpl in Hstep. subst o.
    destruct (fires now (price_index prices) kr.2) eqn:Hf.
    + destruct (check_rule_fires _ _ _ Hf) as (e & He & _ & _ & _ & _ & Hat & _).
      rewrite He in Hc. by simplify_eq.
    + rewrite (check_rule_quiet _ _ _ Hf) in Hc. discriminate.
Qed.

End AlertEngineMore.

(* ===================================================================== *)
(** * More on the price cache *)
(* ===================================================================== *)

Section PriceCacheMore.
Context `{PyLib}.

Lemma float_gt_int_antitone x n n' :
  n <= n' -> float_gt_int x n = false -> float_gt_int x n' = false.
Proof.
  unfold float_gt_int, float_compare_int. intros Hle.
  destruct (Prim2SF x) as [s|s| |s m e]; try done.
  - destruct (Z.compare_spec 0 n), (Z.compare_spec 0 n');
      intros; try done; exfalso; lia.
  - set (v := if s then Z.neg m else Z.pos m). clearbody v.
    destruct (Z.leb_spec 0 e).
    + destruct (Z.compare_spec (v * 2 ^ e) n), (Z.compare_spec (v * 2 ^ e) n');
        intros; try done; exfalso; lia.
    + assert (0 < 2 ^ (- e)) by (apply Z.pow_pos_nonneg; lia).
      destruct (Z.compare_spec v (n * 2 ^ (- e))),
               (Z.compare_spec v (n' * 2 ^ (- e)));
        intros; try done; exfalso; nia.
Qed.

(** X7. A larger [max_age_seconds] never turns a hit into a miss: what
    [load_prices] returns within some maximal age it returns within every
    larger one, the clock and the cached text being the same. *)
Theorem load_prices_monotone_in_max_age self max_age max_age' now get_reply prices :
  max_age <= max_age' ->
  load_prices self max_age now get_reply = Some prices ->
  load_prices self max_age' now get_reply = Some prices.
Proof.
  intros Hle Hhit. apply load_prices_hit. apply load_prices_hit in Hhit.
  destruct Hhit as (raw & ts & Hraw & Hts & Hp & Hs).
  exists raw, ts. repeat split; try done.
  unfold not_stale in *. apply negb_true_iff in Hs. apply negb_true_iff.
  by apply (float_gt_int_antitone _ max_age).
Qed.

(** X8. The [data] of a cached payload. A payload that parses, with a fresh
    [ts], and that has no [data] at all is a hit with an empty snapshot: the
    default of [blob.get("data", [])]. With a [data] that is [null] the same
    payload is a miss, the iteration over [None] raising inside the [try]. *)
Theorem payload_without_data self max_age now get_reply raw blob ts :
  cached_raw self get_reply = Some raw ->
  json_loads raw = Some (JDict blob) ->
  payload_ts raw = Some ts ->
  not_stale now ts max_age = true ->
  (dict_get blob "data" = None ->
   load_prices self max_age now get_reply = Some [])
  /\ (dict_get blob "data" = Some JNull ->
      load_prices self max_age now get_reply = None).
Proof.
  intros Hraw Hjson Hts Hfresh.
  unfold load_prices. rewrite Hraw, parse_cached_spec, Hts, Hfresh.
  unfold payload_prices. rewrite Hjson.
  split; intros ->; reflexivity.
Qed.

End PriceCacheMore.

(* ===================================================================== *)
(** * More on the subscriber registry *)
(* ===================================================================== *)

Lemma py_remove_split x l :
  x ∈ l ->
  exists l1 l2, l = l1 ++ x :: l2 /\ (x ∉ l1) /\ py_remove x l = Some (l1 ++ l2).
Proof.
  induction l as [|y l IH]; intros Hin; [by apply elem_of_nil in Hin|].
  simpl. destruct (decide (y = x)) as [->|Hne].
  - exists [], l. split; [done|]. split; [apply not_elem_of_nil|done].
  - apply elem_of_cons in Hin as [->|Hin]; [done|].
    destruct (IH Hin) as (l1 & l2 & -> & Hl1 & ->).
    exists (y :: l1), l2. split; [done|]. split; [|done].
    apply not_elem_of_cons. split; [congruence|done].
Qed.

Lemma disconnect_split self ws :
  ws ∈ active_connections self ->
  exists l1 l2,
    active_connections self = l1 ++ ws :: l2
    /\ (ws ∉ l1)
    /\ active_connections (disconnect self ws) = l1 ++ l2.
Proof.
  intros Hin. destruct (py_remove_split _ _ Hin) as (l1 & l2 & Hl & Hl1 & Hr).
  exists l1, l2. split; [done|]. split; [done|].
  unfold disconnect. rewrite decide_True by done. by rewrite Hr.
Qed.

Lemma disconnect_sublist self ws :
  active_connections (disconnect self ws) `sublist_of` active_connections self.
Proof.
  destruct (decide (ws ∈ active_connections self)) as [Hin|Hout].
  - destruct (disconnect_split _ _ Hin) as (l1 & l2 & -> & _ & ->).
    apply sublist_app; [done|]. by apply sublist_cons.
  - unfold disconnect. by rewrite decide_False.
Qed.

Lemma disconnect_keeps_others self ws other :
  other <> ws ->
  other ∈ active_connections self ->
  other ∈ active_connections (disconnect self ws).
Proof.
  intros Hne Hin.
  destruct (decide (ws ∈ active_connections self)) as [Hws|Hout].
  - destruct (disconnect_split _ _ Hws) as (l1 & l2 & Hl & _ & ->).
    rewrite Hl in Hin. rewrite elem_of_app, elem_of_cons in Hin.
    rewrite elem_of_app. destruct Hin as [?|[?|?]]; [by left|done|by right].
  - unfold disconnect. by rewrite decide_False.
Qed.

(** X10. [disconnect] takes out one entry, the first one of the websocket,
    and never raises: on a websocket that is not registered the registry
    is unchanged, and on one that is, the entries before and after its
    first occurrence stay in their order. [connect] followed by
    [disconnect] of a websocket that was not registered gives the registry
    back. *)
Theorem disconnect_takes_first_occurrence self ws :
  (ws ∉ active_connections self -> disconnect self ws = self)
  /\ (ws ∈ active_connections self ->
      exists l1 l2,
        active_connections self = l1 ++ ws :: l2
        /\ (ws ∉ l1)
        /\ active_connections (disconnect self ws) = l1 ++ l2)
  /\ (ws ∉ active_connections self ->
      exists self',
        connect self ws (Returns tt) = Returns self'
        /\ active_connections self' = active_connections self ++ [ws]
        /\ disconnect self' ws = self).
Proof.
  split; [|split].
  - intros Hout. unfold disconnect. by rewrite decide_False.
  - apply disconnect_split.
  - intros Hout. eexists. split; [reflexivity|]. split; [done|].
    assert (Hin : ws ∈ active_connections self ++ [ws])
      by (apply elem_of_app; right; apply list_elem_of_here).
    destruct (disconnect_split {| active_connections := active_connections self ++ [ws] |}
                ws Hin) as (l1 & l2 & Hl & Hl1 & Hd).
    simpl in Hl.
    assert (l1 = active_connections self /\ l2 = []) as [-> ->].
    { destruct l2 as [|z l2 _] using rev_ind.
      - apply app_inj_tail in Hl as [-> _]. done.
      - rewrite app_comm_cons, app_assoc in Hl. apply app_inj_tail in Hl as [Hl ->].
        exfalso. apply Hout. rewrite Hl. apply elem_of_app. right.
        apply list_elem_of_here. }
    destruct self as [conns]. destruct (disconnect _ ws) as [conns'].
    simpl in *. rewrite Hd. by rewrite app_nil_r.
Qed.

Lemma broadcast_loop_log send_text message connections i self log :
  (broadcast_loop send_text message i connections self log).2
  = log ++ attempts send_text message i connections.
Proof.
  revert i self log. induction connections as [|c rest IH]; intros i self log.
  - simpl. by rewrite app_nil_r.
  - cbn [broadcast_loop attempts].
    destruct (send_text i) as [[]|]; rewrite IH; by rewrite <- app_assoc.
Qed.

Lemma map_attempt_to send_text message connections i :
  map attempt_to (attempts send_text message i connections) = connections.
Proof.
  revert i. induction connections as [|c rest IH]; intros i; [done|].
  simpl. by rewrite IH.
Qed.

Lemma broadcast_loop_registry send_text message connections i self log :
  let after := (broadcast_loop send_text message i connections self log).1 in
  active_connections after `sublist_of` active_connections self
  /\ (forall ws,
        ws ∈ active_connections self ->
        ws ∉ failed (attempts send_text message i connections) ->
        ws ∈ active_connections after)
  /\ (failed (attempts send_text message i connections) = [] -> after = self).
Proof.
  revert i self log. induction connections as [|c rest IH]; intros i self log.
  - simpl. repeat split; done.
  - cbn [broadcast_loop attempts]. rewrite failed_cons. unfold delivered.
    cbn [attempt_reply attempt_to].
    destruct (send_text i) as [[]|].
    + apply IH.
    + destruct (IH (S i) (disconnect self c)
                   (log ++ [mk_attempt c message Raises])) as (Hsub & Hkeep & _).
      split; [|split].
      * etrans; [exact Hsub|]. apply disconnect_sublist.
      * intros ws Hin Hnf. apply not_elem_of_cons in Hnf as [Hne Hnf].
        apply Hkeep; [|done]. by apply disconnect_keeps_others.
      * discriminate.
Qed.

(** X9. [broadcast] on any registry, repeated entries allowed. Every entry
    of the registry as it is when the call starts gets one send, in order,
    whatever the earlier sends did. Nobody is added and the order is kept;
    a websocket none of whose sends raised is still registered; and when
    no send raises the registry is unchanged. *)
Theorem broadcast_attempts_every_entry self message send_text :
  let before := active_connections self in
  let after := (broadcast self message send_text).1 in
  let log := (broadcast self message send_text).2 in
  log = attempts send_text message 0 before
  /\ map attempt_to log = before
  /\ active_connections after `sublist_of` before
  /\ (forall ws, ws ∈ before -> ws ∉ failed log -> ws ∈ active_connections after)
  /\ (failed log = [] -> after = self).
Proof.
  intros before after log. subst before after log. unfold broadcast.
  rewrite broadcast_loop_log, app_nil_l, map_attempt_to.
  split; [done|]. split; [done|].
  apply (broadcast_loop_registry send_text message (active_connections self) 0 self []).
Qed.

(* ===================================================================== *)
(** * The price provider *)
(* ===================================================================== *)

Lemma float_ltb_leb a b : PrimFloat.ltb a b = true -> PrimFloat.leb a b = true.
Proof.
  rewrite ltb_spec, leb_spec. unfold SFltb, SFleb.
  by destruct (SFcompare (Prim2SF a) (Prim2SF b)) as [[]|].
Qed.

Lemma py_max_floor x : PrimFloat.leb 1%float (py_max 1%float x) = true.
Proof.
  unfold py_max. destruct (PrimFloat.ltb 1%float x) eqn:Hlt.
  - by apply float_ltb_leb.
  - reflexivity.
Qed.

(** The division of the percentage is guarded by the very test that makes
    it raise. *)
Lemma percent_change_of_total change prev_price :
  is_Some (percent_change_of change prev_price).
Proof.
  unfold percent_change_of, float_truthy, py_truediv.
  by destruct (PrimFloat.eqb prev_price 0%float).
Qed.

Lemma fallback_price_shape self symbol now r :
  exists self' p,
    _fallback_price self symbol now r = Some (self', p)
    /\ StockPrice.symbol p = symbol
    /\ StockPrice.ts p = now
    /\ PrimFloat.leb 1%float (StockPrice.price p) = true
    /\ StockPrice.change p
       = PrimFloat.sub (StockPrice.price p)
                       (default 100%float (_fallback_state self !! symbol))
    /\ _fallback_state self' = <[symbol := StockPrice.price p]> (_fallback_state self)
    /\ symbols self' = symbols self
    /\ api_key self' = api_key self.
Proof.
  unfold _fallback_price.
  destruct (percent_change_of_total
              (PrimFloat.sub
                 (py_max 1%float
                    (PrimFloat.add (default 100%float (_fallback_state self !! symbol))
                       (PrimFloat.mul (PrimFloat.sub r 0.5%float) 4%float)))
                 (default 100%float (_fallback_state self !! symbol)))
              (default 100%float (_fallback_state self !! symbol))) as [pc Hpc].
  rewrite Hpc. simpl. eexists _, _. split; [reflexivity|]. simpl.
  repeat split. apply py_max_floor.
Qed.

(** X11. [_fallback_price] never raises, a baseline of zero included. The
    price it returns is at least 1.0 and becomes the baseline of the
    symbol, the baselines of the other symbols staying as they are; the
    change is that price less the baseline before, 100.0 for a symbol that
    had none; the price carries the symbol as given and the time [now]. *)
Theorem fallback_price_floor self symbol now r :
  exists self' p,
    _fallback_price self symbol now r = Some (self', p)
    /\ StockPrice.symbol p = symbol
    /\ StockPrice.ts p = now
    /\ PrimFloat.leb 1%float (StockPrice.price p) = true
    /\ StockPrice.change p
       = PrimFloat.sub (StockPrice.price p)
                       (default 100%float (_fallback_state self !! symbol))
    /\ _fallback_state self' !! symbol = Some (StockPrice.price p)
    /\ (forall other, other <> symbol ->
                      _fallback_state self' !! other = _fallback_state self !! other)
    /\ symbols self' = symbols self
    /\ api_key self' = api_key self.
Proof.
  destruct (fallback_price_shape self symbol now r)
    as (self' & p & Hfb & Hsym & Hts & Hfloor & Hch & Hst & Hsyms & Hkey).
  exists self', p. rewrite Hst.
  split; [done|]. split; [done|]. split; [done|]. split; [done|]. split; [done|].
  split; [apply lookup_insert_eq|]. split; [|done].
  intros other Hne. by apply lookup_insert_ne.
Qed.

Section ProviderProps.
Context `{PyLib}.

(** What one turn of the loop of [get_prices] does on one symbol, the
    fetch having worked or not. *)
Lemma price_step_shape self sym now http r :
  exists self' p,
    match _fetch_symbol_from_finnhub self sym now http with
    | Some res => Some res
    | None => _fallback_price self sym now r
    end = Some (self', p)
    /\ StockPrice.symbol p = sym
    /\ StockPrice.ts p = now
    /\ symbols self' = symbols self
    /\ api_key self' = api_key self
    /\ _fallback_state self' = <[sym := StockPrice.price p]> (_fallback_state self)
    /\ (forall b, _fallback_state self !! sym = Some b ->
                  StockPrice.change p = PrimFloat.sub (StockPrice.price p) b).
Proof.
  destruct (_fetch_symbol_from_finnhub self sym now http) as [[self' p]|] eqn:Hf.
  - exists self', p. split; [done|].
    unfold _fetch_symbol_from_finnhub in Hf.
    destruct (negb (str_truthy (api_key self))); [done|].
    destruct http as [body|]; [|done].
    destruct (bytes_decode body) as [raw|]; [|done]. simpl in Hf.
    destruct (json_loads raw) as [[| | | | | |fields]|]; try done. simpl in Hf.
    destruct (dict_get fields "c") as [price|]; [|done].
    assert (Hgo : (nonpositive ← py_le_zero price;
                   if (nonpositive : bool) then None else
                   current ← py_float price;
                   percent_change ←
                     percent_change_of
                       (PrimFloat.sub current
                          (default current (_fallback_state self !! sym)))
                       (default current (_fallback_state self !! sym));
                   Some ({| symbols := symbols self; api_key := api_key self;
                            _fallback_state :=
                              <[sym := current]> (_fallback_state self) |},
                         StockPrice.mk sym current
                           (PrimFloat.sub current
                              (default current (_fallback_state self !! sym)))
                           percent_change now))
                  = Some (self', p)) by (by destruct price).
    clear Hf.
    destruct (py_le_zero price) as [[]|]; try done. simpl in Hgo.
    destruct (py_float price) as [current|]; [|done]. simpl in Hgo.
    destruct (percent_change_of _ _) as [pc|]; [|done]. simpl in Hgo.
    injection Hgo as <- <-. simpl. repeat split.
    intros b Hb. by rewrite Hb.
  - destruct (fallback_price_shape self sym now r)
      as (self' & p & Hfb & Hsym & Hts & _ & Hch & Hst & Hsyms & Hkey).
    exists self', p. rewrite Hfb. repeat split; try done.
    intros b Hb. by rewrite Hch, Hb.
Qed.

Lemma fetch_loop_shape syms self now http rand i :
  exists self' ps,
    fetch_loop self syms now http rand i = Some (self', ps)
    /\ map StockPrice.symbol ps = syms
    /\ Forall (fun p => StockPrice.ts p = now) ps
    /\ symbols self' = symbols self
    /\ api_key self' = api_key self
    /\ (forall k, k ∉ syms -> _fallback_state self' !! k = _fallback_state self !! k)
    /\ (forall k, is_Some (_fallback_state self !! k) ->
                  is_Some (_fallback_state self' !! k))
    /\ (NoDup syms ->
        Forall (fun p =>
                  _fallback_state self' !! StockPrice.symbol p
                  = Some (StockPrice.price p)
                  /\ forall b, _fallback_state self !! StockPrice.symbol p = Some b ->
                               StockPrice.change p
                               = PrimFloat.sub (StockPrice.price p) b) ps).
Proof.
  revert self i. induction syms as [|sym rest IH]; intros self i.
  - exists self, []. simpl. repeat split; auto.
  - cbn [fetch_loop].
    destruct (price_step_shape self sym now (http i) (rand i))
      as (self1 & p & -> & Hsym & Hts & Hsyms & Hkey & Hst & Hch).
    destruct (IH self1 (S i))
      as (self2 & ps & Hloop & Hmap & Hall & Hsyms2 & Hkey2 & Hout & Hdom & Hnd).
    simpl. rewrite Hloop. simpl. exists self2, (p :: ps).
    split; [done|]. split; [by rewrite <- Hsym, <- Hmap|].
    split; [by constructor|]. split; [congruence|]. split; [congruence|].
    split; [|split].
    + intros k Hk. apply not_elem_of_cons in Hk as [Hne Hk].
      rewrite (Hout k Hk), Hst. by apply lookup_insert_ne.
    + intros k Hk. apply Hdom. rewrite Hst.
      destruct (decide (sym = k)) as [->|Hne].
      * by rewrite lookup_insert_eq.
      * by rewrite lookup_insert_ne.
    + intros Hnodup. apply NoDup_cons in Hnodup as [Hfresh Hnodup].
      constructor.
      * split; [|by rewrite Hsym].
        rewrite Hsym, (Hout sym Hfresh), Hst. apply lookup_insert_eq.
      * specialize (Hnd Hnodup). rewrite Forall_forall in Hnd.
        apply Forall_forall. intros q Hq.
        destruct (Hnd q Hq) as [Hq1 Hq2]. split; [done|].
        intros b Hb. apply Hq2. rewrite Hst.
        destruct (decide (sym = StockPrice.symbol q)) as [Heq|Hne].
        -- exfalso. apply Hfresh. rewrite Heq, <- Hmap.
           by apply (list_elem_of_fmap_2 StockPrice.symbol).
        -- by rewrite lookup_insert_ne.
Qed.

Lemma fallback_loop_is_fetch_loop syms self now http rand i :
  str_truthy (api_key self) = false ->
  fallback_loop self syms now rand i = fetch_loop self syms now http rand i.
Proof.
  revert self i. induction syms as [|sym rest IH]; intros self i Hkey; [done|].
  cbn [fallback_loop fetch_loop].
  assert (Hf : _fetch_symbol_from_finnhub self sym now (http i) = None).
  { unfold _fetch_symbol_from_finnhub. by rewrite Hkey. }
  rewrite Hf.
  destruct (fallback_price_shape self sym now (rand i))
    as (self1 & p & -> & _ & _ & _ & _ & _ & _ & Hkey1).
  simpl. rewrite IH; [done|]. by rewrite Hkey1.
Qed.

Lemma get_prices_is_fetch_loop self now http rand :
  get_prices self now http rand
  = fetch_loop self (symbols self) now http rand 0.
Proof.
  unfold get_prices, _fallback_snapshot. simpl.
  destruct (str_truthy (api_key self)) eqn:Hkey; [done|].
  simpl. by apply fallback_loop_is_fetch_loop.
Qed.

(** X12. [get_prices] never raises and returns one price for each
    configured symbol, in the order of [self.symbols], under the symbol as
    configured and stamped [now], whatever Finnhub answers for any of them:
    a symbol whose fetch fails gets the mock price. The list of symbols and
    the API key are not changed, and a symbol that had a baseline keeps
    one. *)
Theorem get_prices_one_per_symbol self now http rand :
  exists self' prices,
    get_prices self now http rand = Some (self', prices)
    /\ map StockPrice.symbol prices = symbols self
    /\ Forall (fun p => StockPrice.ts p = now) prices
    /\ symbols self' = symbols self
    /\ api_key self' = api_key self
    /\ (forall k, k ∉ symbols self ->
                  _fallback_state self' !! k = _fallback_state self !! k)
    /\ (forall k, is_Some (_fallback_state self !! k) ->
                  is_Some (_fallback_state self' !! k)).
Proof.
  rewrite get_prices_is_fetch_loop.
  destruct (fetch_loop_shape (symbols self) self now http rand 0)
    as (self' & ps & Hloop & Hmap & Hts & Hsyms & Hkey & Hout & Hdom & _).
  exists self', ps. repeat split; done.
Qed.

(** X13. With no symbol configured twice, the baseline [get_prices] leaves
    for each symbol is the price it returned for it, and the change of each
    returned price is that price less the baseline the symbol had before
    the call: from the second snapshot on, the change is the difference to
    the price of the snapshot before. *)
Theorem get_prices_change_is_since_last_snapshot self now http rand self' prices :
  NoDup (symbols self) ->
  get_prices self now http rand = Some (self', prices) ->
  Forall (fun p =>
            _fallback_state self' !! StockPrice.symbol p = Some (StockPrice.price p)
            /\ forall b, _fallback_state self !! StockPrice.symbol p = Some b ->
                         StockPrice.change p = PrimFloat.sub (StockPrice.price p) b)
         prices.
Proof.
  intros Hnd Hget. rewrite get_prices_is_fetch_loop in Hget.
  destruct (fetch_loop_shape (symbols self) self now http rand 0)
    as (self1 & ps & Hloop & _ & _ & _ & _ & _ & _ & Hall).
  rewrite Hloop in Hget. injection Hget as <- <-. by apply Hall.
Qed.

Lemma price_step_origin self sym now http r self' p :
  match _fetch_symbol_from_finnhub self sym now http with
  | Some res => Some res
  | None => _fallback_price self sym now r
  end = Some (self', p) ->
  PrimFloat.leb 1%float (StockPrice.price p) = true
  \/ accepted_quote (StockPrice.price p).
Proof.
  destruct (_fetch_symbol_from_finnhub self sym now http) as [[self1 p1]|] eqn:Hf.
  - intros [= -> ->]. right.
    unfold _fetch_symbol_from_finnhub in Hf.
    destruct (negb (str_truthy (api_key self))); [done|].
    destruct http as [body|]; [|done].
    destruct (bytes_decode body) as [raw|]; [|done]. simpl in Hf.
    destruct (json_loads raw) as [[| | | | | |fields]|]; try done. simpl in Hf.
    destruct (dict_get fields "c") as [price|]; [|done].
    exists price.
    destruct (py_le_zero price) as [[]|] eqn:Hle; try (by destruct price).
    destruct (py_float price) as [current|] eqn:Hfl; try (by destruct price).
    split; [done|].
    assert (Hgo : (percent_change ←
                     percent_change_of
                       (PrimFloat.sub current
                          (default current (_fallback_state self !! sym)))
                       (default current (_fallback_state self !! sym));
                   Some ({| symbols := symbols self; api_key := api_key self;
                            _fallback_state :=
                              <[sym := current]> (_fallback_state self) |},
                         StockPrice.mk sym current
                           (PrimFloat.sub current
                              (default current (_fallback_state self !! sym)))
                           percent_change now))
                  = Some (self', p)) by (by destruct price).
    destruct (percent_change_of _ _) as [pc|]; [|done]. simpl in Hgo.
    by injection Hgo as <- <-.
  - intros Hfb. left.
    destruct (fallback_price_shape self sym now r)
      as (self1 & p1 & Hfb1 & _ & _ & Hfloor & _).
    rewrite Hfb1 in Hfb. by injection Hfb as <- <-.
Qed.

Lemma fetch_loop_origin syms self now http rand i self' ps :
  fetch_loop self syms now http rand i = Some (self', ps) ->
  Forall (fun p => PrimFloat.leb 1%float (StockPrice.price p) = true
                   \/ accepted_quote (StockPrice.price p)) ps.
Proof.
  revert self i self' ps. induction syms as [|sym rest IH]; intros self i self' ps.
  - simpl. intros [= <- <-]. constructor.
  - cbn [fetch_loop].
    destruct (match _fetch_symbol_from_finnhub self sym now (http i) with
              | Some res => Some res
              | None => _fallback_price self sym now (rand i)
              end) as [[self1 p]|] eqn:Hstep; [|done].
    simpl. destruct (fetch_loop self1 rest now http rand (S i)) as [[self2 qs]|] eqn:Hl;
      [|done].
    simpl. intros [= <- <-]. constructor.
    + by eapply price_step_origin.
    + by eapply IH.
Qed.

(** X14. No price of a snapshot is a rejected quote: each price
    [get_prices] returns is a mock price, at least 1.0, or the float of a
    Finnhub value [c] that passed the test [c <= 0] as false. A missing or
    null [c], a zero or a negative one, [false], or a value that does not
    compare with a number never gets into a snapshot. *)
Theorem get_prices_only_checked_prices self now http rand :
  exists self' prices,
    get_prices self now http rand = Some (self', prices)
    /\ Forall (fun p => PrimFloat.leb 1%float (StockPrice.price p) = true
                        \/ accepted_quote (StockPrice.price p)) prices.
Proof.
  rewrite get_prices_is_fetch_loop.
  destruct (fetch_loop_shape (symbols self) self now http rand 0)
    as (self' & ps & Hloop & _).
  exists self', ps. split; [done|]. by eapply fetch_loop_origin.
Qed.

End ProviderProps.

Lemma baseline_state_dom syms i state state' :
  baseline_state i syms state = Some state' ->
  forall k, is_Some (state' !! k) <-> k ∈ syms \/ is_Some (state !! k).
Proof.
  revert i state. induction syms as [|sym rest IH]; intros i state Hb k.
  - simpl in Hb. injection Hb as <-. rewrite elem_of_nil. tauto.
  - simpl in Hb. destruct (float_of_int (i * 50)) as [x|]; [|done].
    rewrite (IH _ _ Hb k), elem_of_cons.
    destruct (decide (sym = k)) as [->|Hne].
    + rewrite lookup_insert_eq. split; [auto|]. intros _. right. by eexists.
    + rewrite lookup_insert_ne by done. split; intros [?|?]; auto.
      destruct H as [?|?]; [congruence|auto].
Qed.

(** X15. A provider that [__init__] built has a list of symbols that is not
    empty, the default four when none or an empty list was given, and a
    baseline for exactly the configured symbols. Its API key is the
    argument when that is a non-empty string, else [FINNHUB_TOKEN] when
    that is one, else whatever [FINNHUB_API_KEY] holds. *)
Theorem provider_init_baselines symbols_arg api_key_arg env_token env_api_key self :
  StockPriceProvider_init symbols_arg api_key_arg env_token env_api_key = Some self ->
  symbols self <> []
  /\ (symbols_arg = None \/ symbols_arg = Some [] -> symbols self = DEFAULT_SYMBOLS)
  /\ (forall syms, symbols_arg = Some syms -> syms <> [] -> symbols self = syms)
  /\ (forall k, is_Some (_fallback_state self !! k) <-> k ∈ symbols self)
  /\ (str_truthy api_key_arg = true -> api_key self = api_key_arg)
  /\ (str_truthy api_key_arg = false -> str_truthy env_token = true ->
      api_key self = env_token)
  /\ (str_truthy api_key_arg = false -> str_truthy env_token = false ->
      api_key self = env_api_key).
Proof.
  unfold StockPriceProvider_init. intros Hinit.
  destruct (baseline_state 0 _ ∅) as [state|] eqn:Hb; [|done].
  simpl in Hinit. injection Hinit as <-. simpl.
  split; [by destruct symbols_arg as [[|? ?]|]|].
  split; [by intros [->| ->]|].
  split; [intros [|? ?] -> ?; done|].
  split.
  - intros k. rewrite (baseline_state_dom _ _ _ _ Hb k), lookup_empty.
    split; [intros [?|[? ?]]; done|auto].
  - unfold py_or. repeat split.
    + intros Ha. by rewrite !Ha.
    + intros Ha Ht. by rewrite !Ha, Ht.
    + intros Ha Ht. by rewrite !Ha, Ht.
Qed.

(* ===================================================================== *)
(** * One cycle: get_fresh_prices *)
(* ===================================================================== *)

Section CycleProps.
Context `{PyFormat} `{PyDatetime} `{PyLib}.

Lemma notify_disabled self events webex :
  enabled self = false -> notify self events webex = [].
Proof.
  intros Hoff. unfold notify.
  induction (imap pair events) as [|ie l IH]; [done|].
  cbn [omap list_omap]. unfold send_alert at 1. rewrite Hoff. simpl. exact IH.
Qed.

Lemma notify_enabled_length self events webex :
  enabled self = true -> length (notify self events webex) = length events.
Proof.
  intros Hon. unfold notify.
  rewrite <- (length_imap pair events).
  induction (imap pair events) as [|ie l IH]; [done|].
  cbn [omap list_omap]. unfold send_alert at 1. rewrite Hon. simpl.
  f_equal. exact IH.
Qed.

(** X16. [get_fresh_prices] never raises. On a cache hit it returns the
    cached prices and touches neither the provider nor the cache; on a miss
    it returns the provider's snapshot, one price per configured symbol,
    and the cache keeps that snapshot in memory. Hit or miss, the alert
    rules are evaluated on the prices returned, and each fired event gives
    one WebEx post when the notifier is enabled and none when it is not,
    whatever WebEx answers. *)
Theorem get_fresh_prices_returns app env :
  let cached :=
    load_prices (price_cache app) 20 (env_load_time env) (env_get_reply env) in
  exists app' prices posted,
    get_fresh_prices app env = Some (app', prices, posted)
    /\ webex_notifier app' = webex_notifier app
    /\ alert_manager app'
       = (check_alerts (alert_manager app) prices (env_alerts_now env)).1
    /\ (cached <> None ->
        cached = Some prices
        /\ price_provider app' = price_provider app
        /\ price_cache app' = price_cache app)
    /\ (cached = None ->
        get_prices (price_provider app) (env_fetch_now env) (env_finnhub env)
                   (env_random env)
        = Some (price_provider app', prices)
        /\ map StockPrice.symbol prices = symbols (price_provider app)
        /\ _memory_blob (price_cache app')
           = Some (json_dumps (saved_blob prices (env_save_time env))))
    /\ (enabled (webex_notifier app) = false -> posted = [])
    /\ (enabled (webex_notifier app) = true ->
        length posted
        = length (check_alerts (alert_manager app) prices (env_alerts_now env)).2).
Proof.
  intros cached. subst cached. unfold get_fresh_prices.
  destruct (load_prices (price_cache app) 20 (env_load_time env) (env_get_reply env))
    as [prices|] eqn:Hload.
  - simpl.
    destruct (check_alerts (alert_manager app) prices (env_alerts_now env))
      as [manager' events] eqn:Hc.
    eexists _, prices, _. split; [reflexivity|]. simpl. rewrite ?Hc.
    split; [done|]. split; [done|].
    split; [intros _; split; [done|]; split; done|].
    split; [intros; discriminate|].
    split; [apply notify_disabled|apply notify_enabled_length].
  - unfold get_price_snapshot. rewrite get_prices_is_fetch_loop.
    destruct (fetch_loop_shape (symbols (price_provider app)) (price_provider app)
                (env_fetch_now env) (env_finnhub env) (env_random env) 0)
      as (provider' & prices & Hloop & Hmap & _).
    rewrite Hloop. simpl.
    destruct (check_alerts (alert_manager app) prices (env_alerts_now env))
      as [manager' events] eqn:Hc.
    eexists _, prices, _. split; [reflexivity|]. simpl. rewrite ?Hc.
    split; [done|]. split; [done|]. split; [done|].
    split; [intros _; split; [done|]; split; [done|]|].
    + unfold save_prices. by destruct (redis_client (price_cache app)).
    + split; [apply notify_disabled|apply notify_enabled_length].
Qed.

(** X17. One fetch serves the calls that follow. Take a call of
    [get_fresh_prices] that missed the cache and so fetched and stored a
    snapshot, this snapshot being one the library encoding carries there
    and back. A next call within the 20 seconds, to which Redis answers
    with what was stored or with nothing, returns the same snapshot
    without asking the provider: provider and cache are as the first call
    left them. *)
Theorem second_call_reuses_snapshot app env1 app1 prices1 posted1 env2 :
  let raw := json_dumps (saved_blob prices1 (env_save_time env1)) in
  get_fresh_prices app env1 = Some (app1, prices1, posted1) ->
  load_prices (price_cache app) 20 (env_load_time env1) (env_get_reply env1) = None ->
  json_loads raw = Some (saved_blob prices1 (env_save_time env1)) ->
  build_prices (jsonable_encoder prices1) = Some prices1 ->
  bytes_decode (str_encode raw) = Some raw ->
  reads_back (price_cache app) raw (env_get_reply env2) ->
  not_stale (env_load_time env2) (env_save_time env1) 20 = true ->
  exists app2 posted2,
    get_fresh_prices app1 env2 = Some (app2, prices1, posted2)
    /\ price_provider app2 = price_provider app1
    /\ price_cache app2 = price_cache app1.
Proof.
  intros raw Hcall Hmiss Hjson Hcodec Hutf Hback Hfresh.
  assert (Hcache : price_cache app1
                   = (save_prices (price_cache app) prices1 (env_save_time env1)
                                  (env_set_reply env1)).1).
  { unfold get_fresh_prices in Hcall. rewrite Hmiss in Hcall.
    destruct (get_price_snapshot _ _ _ _) as [[provider' prices]|]; [|done].
    simpl in Hcall.
    destruct (check_alerts (alert_manager app) prices (env_alerts_now env1)).
    by injection Hcall as <- <- _. }
  assert (Hhit : load_prices (price_cache app1) 20 (env_load_time env2)
                             (env_get_reply env2) = Some prices1).
  { rewrite Hcache. apply load_prices_hit. exists raw, (env_save_time env1).
    split; [by apply cached_raw_reads_back|].
    unfold payload_ts, payload_prices. fold raw. rewrite Hjson. by simpl. }
  unfold get_fresh_prices. rewrite Hhit. simpl.
  destruct (check_alerts (alert_manager app1) prices1 (env_alerts_now env2)).
  eexists _, _. split; [reflexivity|]. done.
Qed.

End CycleProps.

(* ===================================================================== *)
(** * The WebEx notifier *)
(* ===================================================================== *)

(** X18. A notifier that [__init__] built posts with credentials or not at
    all: whenever [send_alert] posts a request, the bot token and the room
    id of the environment are both set and not empty, the header is
    [Bearer] with that token and the body names that room with the text of
    [_build_message_text], whatever the post then does. *)
Theorem notifier_posts_with_credentials `{PyFormat} `{PyDatetime} `{PyLib}
    env_token env_room_id event http req :
  send_alert (WebexNotifier_init env_token env_room_id) event http = Some req ->
  exists tok room,
    env_token = Some tok /\ tok <> EmptyString
    /\ env_room_id = Some room /\ room <> EmptyString
    /\ request_url req = "https://webexapis.com/v1/messages"
    /\ request_headers req = [("Authorization", ("Bearer " ++ tok)%string);
                              ("Content-Type", "application/json")]
    /\ request_data req
       = str_encode (json_dumps (JDict [("roomId", JStr room);
                                        ("text", JStr (_build_message_text event))])).
Proof.
  unfold send_alert, WebexNotifier_init. simpl.
  destruct env_token as [[|c tok]|]; simpl; try discriminate.
  destruct env_room_id as [[|d room]|]; simpl; try discriminate.
  intros [= <-]. exists (String c tok), (String d room). simpl.
  repeat split; done.
Qed.

(* ===================================================================== *)
(** * Concrete runs of the properties above *)
(* ===================================================================== *)

Section MoreRuns.
#[local] Existing Instance sample_format.

Lemma add_rule_appends_witness :
  rules_wf sample_engine
  /\ let r := add_rule sample_engine "NVDA" "<" 100%float "NVDA < 100" true 60 in
     list_rules r.1 = list_rules sample_engine ++ [r.2]
     /\ map fst (_rules r.1) = map fst (_rules sample_engine) ++ [_next_id sample_engine]
     /\ AlertRule.id r.2 = _next_id sample_engine
     /\ (_next_id sample_engine ∉ map fst (_rules sample_engine))
     /\ _events r.1 = _events sample_engine
     /\ rules_wf r.1.
Proof.
  split; [exact sample_engine_wf|].
  exact (add_rule_appends sample_engine "NVDA" "<" 100%float "NVDA < 100" true 60
           sample_engine_wf).
Defined.

Lemma can_trigger_exact_witness :
  let rule := AlertRule.set_last_triggered aapl_rule 5000000 in
  exact_cooldown rule
  /\ AlertRule.last_triggered rule = Some 5000000
  /\ (_can_trigger rule 14999999 = true
      <-> AlertRule.cooldown_seconds rule * 1000000 <= 14999999 - 5000000)
  /\ (_can_trigger rule 15000000 = true
      <-> AlertRule.cooldown_seconds rule * 1000000 <= 15000000 - 5000000).
Proof.
  intros rule.
  assert (Hcool : exact_cooldown rule) by (unfold exact_cooldown; simpl; lia).
  assert (Hlast : AlertRule.last_triggered rule = Some 5000000) by reflexivity.
  split; [exact Hcool|]. split; [exact Hlast|].
  split; [exact (can_trigger_exact rule 14999999 5000000 Hcool Hlast)
         |exact (can_trigger_exact rule 15000000 5000000 Hcool Hlast)].
Defined.

Lemma no_matching_symbol_fires_nothing_witness :
  Forall (fun kr => forall p, p ∈ [quote "IBM" 150%float] ->
                      upper (StockPrice.symbol p) <> upper (AlertRule.symbol kr.2))
         (_rules sample_engine)
  /\ (@check_alerts sample_format sample_engine [quote "IBM" 150%float] 0).2 = []
  /\ _rules (@check_alerts sample_format sample_engine [quote "IBM" 150%float] 0).1
     = _rules sample_engine
  /\ _next_id (@check_alerts sample_format sample_engine [quote "IBM" 150%float] 0).1
     = _next_id sample_engine.
Proof.
  assert (Hno : Forall (fun kr => forall p, p ∈ [quote "IBM" 150%float] ->
                                    upper (StockPrice.symbol p)
                                    <> upper (AlertRule.symbol kr.2))
                       (_rules sample_engine)).
  { repeat (constructor;
            [intros p ->%list_elem_of_singleton; vm_compute; discriminate|]).
    constructor. }
  split; [exact Hno|].
  exact (@no_matching_symbol_fires_nothing sample_format sample_engine
           [quote "IBM" 150%float] 0 Hno).
Defined.

Lemma load_prices_monotone_in_max_age_witness :
  20 <= 3600
  /\ @load_prices table_lib (memory_holding sample_payload) 20 1015%float Raises
     = Some new_prices
  /\ @load_prices table_lib (memory_holding sample_payload) 3600 1015%float Raises
     = Some new_prices.
Proof.
  assert (Hle : 20 <= 3600) by lia.
  assert (Hhit : @load_prices table_lib (memory_holding sample_payload) 20
                   1015%float Raises = Some new_prices)
    by (vm_compute; reflexivity).
  split; [exact Hle|]. split; [exact Hhit|].
  exact (@load_prices_monotone_in_max_age table_lib (memory_holding sample_payload)
           20 3600 1015%float Raises new_prices Hle Hhit).
Defined.

Lemma payload_without_data_witness :
  @cached_raw quote_lib (memory_holding ts_only_payload) Raises = Some ts_only_payload
  /\ @json_loads quote_lib ts_only_payload = Some (JDict [("ts", JFloat 1000%float)])
  /\ @payload_ts quote_lib ts_only_payload = Some 1000%float
  /\ not_stale 1015%float 1000%float 20 = true
  /\ @load_prices quote_lib (memory_holding ts_only_payload) 20 1015%float Raises
     = Some [].
Proof.
  assert (H1 : @cached_raw quote_lib (memory_holding ts_only_payload) Raises
               = Some ts_only_payload) by (vm_compute; reflexivity).
  assert (H2 : @json_loads quote_lib ts_only_payload
               = Some (JDict [("ts", JFloat 1000%float)])) by (vm_compute; reflexivity).
  assert (H3 : @payload_ts quote_lib ts_only_payload = Some 1000%float)
    by (vm_compute; reflexivity).
  assert (H4 : not_stale 1015%float 1000%float 20 = true) by (vm_compute; reflexivity).
  repeat (split; [assumption|]).
  exact (proj1 (@payload_without_data quote_lib (memory_holding ts_only_payload) 20
                  1015%float Raises ts_only_payload [("ts", JFloat 1000%float)]
                  1000%float H1 H2 H3 H4) eq_refl).
Defined.

Lemma get_prices_change_is_since_last_snapshot_witness :
  NoDup (symbols keyed_provider)
  /\ @get_prices quote_lib keyed_provider 0 first_answers middle_draw
     = Some (keyed_provider_after, keyed_snapshot)
  /\ Forall (fun p =>
               _fallback_state keyed_provider_after !! StockPrice.symbol p
               = Some (StockPrice.price p)
               /\ forall b, _fallback_state keyed_provider !! StockPrice.symbol p = Some b ->
                            StockPrice.change p = PrimFloat.sub (StockPrice.price p) b)
            keyed_snapshot.
Proof.
  assert (Hnd : NoDup (symbols keyed_provider))
    by (apply (bool_decide_unpack _); vm_compute; exact I).
  assert (Hget : @get_prices quote_lib keyed_provider 0 first_answers middle_draw
                 = Some (keyed_provider_after, keyed_snapshot))
    by (vm_compute; reflexivity).
  split; [exact Hnd|]. split; [exact Hget|].
  exact (@get_prices_change_is_since_last_snapshot quote_lib keyed_provider 0
           first_answers middle_draw keyed_provider_after keyed_snapshot Hnd Hget).
Defined.

Lemma provider_init_baselines_witness :
  StockPriceProvider_init (Some ["AAPL"; "TSLA"]) None (Some "token") None
  = Some keyed_provider
  /\ symbols keyed_provider = ["AAPL"; "TSLA"]
  /\ (forall k, is_Some (_fallback_state keyed_provider !! k)
                <-> k ∈ symbols keyed_provider)
  /\ api_key keyed_provider = Some "token".
Proof.
  assert (Hinit : StockPriceProvider_init (Some ["AAPL"; "TSLA"]) None (Some "token") None
                  = Some keyed_provider) by (vm_compute; reflexivity).
  destruct (provider_init_baselines _ _ _ _ _ Hinit)
    as (_ & _ & Hsyms & Hdom & _ & Htoken & _).
  split; [exact Hinit|]. split; [by apply Hsyms|]. split; [exact Hdom|].
  by apply Htoken.
Defined.

Lemma second_call_reuses_snapshot_witness :
  @get_fresh_prices sample_format sample_datetime table_lib sample_app
     (cycle_at 1000%float)
  = Some (first_cycle_app, new_prices, [])
  /\ @load_prices table_lib (price_cache sample_app) 20 1000%float Raises = None
  /\ not_stale 1015%float 1000%float 20 = true
  /\ exists app2 posted2,
       @get_fresh_prices sample_format sample_datetime table_lib first_cycle_app
          (cycle_at 1015%float)
       = Some (app2, new_prices, posted2)
       /\ price_provider app2 = price_provider first_cycle_app
       /\ price_cache app2 = price_cache first_cycle_app.
Proof.
  assert (Hcall : @get_fresh_prices sample_format sample_datetime table_lib sample_app
                     (cycle_at 1000%float)
                  = Some (first_cycle_app, new_prices, []))
    by (vm_compute; reflexivity).
  assert (Hmiss : @load_prices table_lib (price_cache sample_app) 20 1000%float Raises
                  = None) by (vm_compute; reflexivity).
  assert (Hfresh : not_stale 1015%float 1000%float 20 = true)
    by (vm_compute; reflexivity).
  split; [exact Hcall|]. split; [exact Hmiss|]. split; [exact Hfresh|].
  refine (@second_call_reuses_snapshot sample_format sample_datetime table_lib
            sample_app (cycle_at 1000%float) first_cycle_app new_prices []
            (cycle_at 1015%float) Hcall Hmiss _ _ _ _ Hfresh).
  - vm_compute; reflexivity.
  - vm_compute; reflexivity.
  - vm_compute; reflexivity.
  - left. reflexivity.
Defined.

Lemma notifier_posts_with_credentials_witness :
  @send_alert sample_format sample_datetime table_lib
     (WebexNotifier_init (Some "token") (Some "room")) sample_event Raises
  = Some sample_request
  /\ exists tok room,
       Some "token" = Some tok /\ tok <> EmptyString
       /\ Some "room" = Some room /\ room <> EmptyString
       /\ request_url sample_request = "https://webexapis.com/v1/messages"
       /\ request_headers sample_request
          = [("Authorization", ("Bearer " ++ tok)%string);
             ("Content-Type", "application/json")]
       /\ request_data sample_request
          = @str_encode table_lib
              (@json_dumps table_lib
                 (JDict [("roomId", JStr room);
                         ("text", JStr (@_build_message_text sample_format
                                          sample_datetime sample_event))])).
Proof.
  assert (Hpost : @send_alert sample_format sample_datetime table_lib
                     (WebexNotifier_init (Some "token") (Some "room")) sample_event Raises
                  = Some sample_request) by reflexivity.
  split; [exact Hpost|].
  exact (@notifier_posts_with_credentials sample_format sample_datetime table_lib
           (Some "token") (Some "room") sample_event Raises sample_request Hpost).
Defined.

End MoreRuns.
